(** * VBAIgame: the real-time conversational audio pipeline

    A shallow embedding of [src/audio_util.py] (class [AudioPlayerAsync]) and
    of the class [DialogueSystem] of [src/app.py] (the definition that is
    live at import time, lines 560-1003), followed by the verification of
    the pipeline's specified properties.

    Conventions of the embedding.
    - Python [int] is [Z]; a numpy [int16] array is a [list Z]; [bytes] is
      a [list byte]; [str] is [string]; a [dict] keyed by strings is a
      [gmap string _].
    - A method is a computation in the monad [M S A := S -> result A * S]:
      it returns a value or raises, and the mutations made before a raise
      stay in the state, as they do in Python.
    - Calls that leave the process (the realtime connection, the chat
      endpoint, [asyncio.sleep]) are appended to a trace kept next to the
      object's fields; what such a call answers is read from an environment
      that the theorems quantify over. *)

From Stdlib Require Import ZArith String Ascii.
From Stdlib.Strings Require Import Byte.
From Stdlib Require Import Sorting.Sorted.
From stdpp Require Import base tactics option list gmap strings.

Local Open Scope Z_scope.

(* ===================================================================== *)
(** * Exceptions and the state-and-exception monad *)
(* ===================================================================== *)

(** A raised Python exception: its class name and [str(e)].  Only classes
    deriving from [Exception] are modelled ([except Exception] catches all
    of them); task cancellation and interpreter exit are outside the model. *)
Record exn := Exn { exn_class : string; exn_str : string }.

Inductive result (A : Type) : Type :=
| Ok (a : A)
| Raise (e : exn).
Arguments Ok {A} a.
Arguments Raise {A} e.

Definition M (S A : Type) : Type := S -> result A * S.

Definition ret {S A} (a : A) : M S A := fun s => (Ok a, s).

Definition bind {S A B} (m : M S A) (k : A -> M S B) : M S B :=
  fun s => match m s with
           | (Ok a, s') => k a s'
           | (Raise e, s') => (Raise e, s')
           end.

Definition raise {S A} (e : exn) : M S A := fun s => (Raise e, s).

(** [try: body except Exception as e: handler e] *)
Definition try_except {S A} (body : M S A) (handler : exn -> M S A) : M S A :=
  fun s => match body s with
           | (Ok a, s') => (Ok a, s')
           | (Raise e, s') => handler e s'
           end.

(** [try: body finally: cleanup] *)
Definition try_finally {S A} (body : M S A) (cleanup : M S unit) : M S A :=
  fun s => match body s with
           | (r, s') => match cleanup s' with
                        | (Ok _, s'') => (r, s'')
                        | (Raise e, s'') => (Raise e, s'')
                        end
           end.

Definition gets {S A} (f : S -> A) : M S A := fun s => (Ok (f s), s).
Definition modify {S} (f : S -> S) : M S unit := fun s => (Ok tt, f s).
Definition when {S} (b : bool) (m : M S unit) : M S unit :=
  if b then m else ret tt.

Declare Scope py_scope.
Delimit Scope py_scope with py.
Notation "x <- m ;; k" := (bind m (fun x => k))
  (at level 100, m at next level, right associativity) : py_scope.
Notation "m ;;; k" := (bind m (fun _ => k))
  (at level 100, right associativity) : py_scope.

(** Run a computation of a component inside the state of its owner. *)
Definition zoom {S T A} (proj : S -> T) (upd : T -> S -> S) (m : M T A) : M S A :=
  fun s => match m (proj s) with (r, t') => (r, upd t' s) end.

(* ===================================================================== *)
(** * Python values used by the pipeline *)
(* ===================================================================== *)

Definition len {A} (l : list A) : Z := Z.of_nat (length l).

(** [l[:n]] and [l[n:]] for a Python sequence, negative [n] counting from
    the end. *)
Definition slice_to {A} (n : Z) (l : list A) : list A :=
  if 0 <=? n then take (Z.to_nat n) l else take (Z.to_nat (len l + n)) l.
Definition slice_from {A} (n : Z) (l : list A) : list A :=
  if 0 <=? n then drop (Z.to_nat n) l else drop (Z.to_nat (len l + n)) l.

(** [np.zeros(n, dtype=np.int16)] for [0 <= n]. *)
Definition np_zeros (n : Z) : list Z := replicate (Z.to_nat n) 0.

Definition byte_val (b : byte) : Z := Z.of_N (Byte.to_N b).

#[export] Instance byte_eq_decision : EqDecision byte := Byte.byte_eq_dec.

(** One little-endian two's complement [int16] sample. *)
Definition int16_of_bytes (lo hi : byte) : Z :=
  let u := byte_val lo + 256 * byte_val hi in
  if u <? 32768 then u else u - 65536.

Definition ValueError (msg : string) : exn := Exn "ValueError" msg.
Definition AttributeError (msg : string) : exn := Exn "AttributeError" msg.
Definition IndexError (msg : string) : exn := Exn "IndexError" msg.
Definition BinasciiError (msg : string) : exn := Exn "binascii.Error" msg.

(** [np.frombuffer(data, dtype=np.int16)]: [None] stands for the
    [ValueError] numpy raises when the buffer size is odd. *)
Fixpoint np_frombuffer_int16 (data : list byte) : option (list Z) :=
  match data with
  | [] => Some []
  | [_] => None
  | lo :: hi :: rest =>
      match np_frombuffer_int16 rest with
      | Some samples => Some (int16_of_bytes lo hi :: samples)
      | None => None
      end
  end.

(* ===================================================================== *)
(** * audio_util.py: AudioPlayerAsync *)
(* ===================================================================== *)

Module AudioUtil.

(** Calls made on the [sd.OutputStream]; the stream is a device handle, so
    the model keeps the calls it received, most recent first. *)
Inductive stream_call := StreamStart | StreamStop | StreamClose.

#[export] Instance stream_call_eq_dec : EqDecision stream_call.
Proof. solve_decision. Defined.

Record AudioPlayerAsync := mkPlayer {
  queue : list (list Z);
  stream : list stream_call;
  playing : bool;
  _frame_count : Z
}.

Definition set_queue (q : list (list Z)) (p : AudioPlayerAsync) :=
  mkPlayer q (stream p) (playing p) (_frame_count p).
Definition set_playing (b : bool) (p : AudioPlayerAsync) :=
  mkPlayer (queue p) (stream p) b (_frame_count p).
Definition set_frame_count (n : Z) (p : AudioPlayerAsync) :=
  mkPlayer (queue p) (stream p) (playing p) n.
Definition stream_do (c : stream_call) (p : AudioPlayerAsync) :=
  mkPlayer (queue p) (c :: stream p) (playing p) (_frame_count p).

(** The device is running when the last call it received is a start. *)
Definition stream_active (p : AudioPlayerAsync) : bool :=
  match stream p with
  | StreamStart :: _ => true
  | _ => false
  end.

(** [AudioPlayerAsync.__init__] *)
Definition __init__ : AudioPlayerAsync := mkPlayer [] [] false 0.

(** The [while] loop of [callback].  The loop test comes first, as in the
    source; [fuel] bounds the number of iterations and [None] means it ran
    out. *)
Fixpoint callback_loop (fuel : nat) (frames : Z) (data : list Z)
    (q : list (list Z)) : option (list Z * list (list Z)) :=
  if bool_decide (len data < frames) && bool_decide (len q > 0) then
    match fuel with
    | O => None
    | S fuel' =>
        match q with
        | [] => Some (data, q)
        | item :: rest =>
            let frames_needed := frames - len data in
            let data' := data ++ slice_to frames_needed item in
            let q' := if bool_decide (len item > frames_needed)
                      then slice_from frames_needed item :: rest
                      else rest in
            callback_loop fuel' frames data' q'
        end
    end
  else Some (data, q).

(** [callback(outdata, frames, time, status)]: returns the block written to
    [outdata] and the player after the call. *)
Definition callback (frames : Z) (p : AudioPlayerAsync)
    : option (list Z * AudioPlayerAsync) :=
  match callback_loop (S (length (queue p))) frames [] (queue p) with
  | None => None
  | Some (data, q') =>
      let count := _frame_count p + len data in
      let data := if bool_decide (len data < frames)
                  then data ++ np_zeros (frames - len data)
                  else data in
      Some (data, set_frame_count count (set_queue q' p))
  end.

Definition reset_frame_count : M AudioPlayerAsync unit :=
  modify (set_frame_count 0).

Definition get_frame_count : M AudioPlayerAsync Z := gets _frame_count.

Definition start : M AudioPlayerAsync unit :=
  (modify (set_playing true) ;;;
   modify (stream_do StreamStart))%py.

Definition add_data (data : list byte) : M AudioPlayerAsync unit :=
  match np_frombuffer_int16 data with
  | None => raise (ValueError "buffer size must be a multiple of element size")
  | Some np_data =>
      (modify (fun p => set_queue (queue p ++ [np_data]) p) ;;;
       playing_now <- gets playing ;;
       when (negb playing_now) start)%py
  end.

Definition stop : M AudioPlayerAsync unit :=
  (modify (set_playing false) ;;;
   modify (stream_do StreamStop) ;;;
   modify (set_queue []))%py.

Definition terminate : M AudioPlayerAsync unit :=
  modify (stream_do StreamClose).

(** A run of the output device: one [callback] per requested block, the
    blocks written one after the other. *)
Fixpoint run_callbacks (blocks : list Z) (p : AudioPlayerAsync)
    : option (list Z * AudioPlayerAsync) :=
  match blocks with
  | [] => Some ([], p)
  | frames :: blocks' =>
      match callback frames p with
      | None => None
      | Some (out, p') =>
          match run_callbacks blocks' p' with
          | None => None
          | Some (outs, p'') => Some (out ++ outs, p'')
          end
      end
  end.

End AudioUtil.

(* ===================================================================== *)
(** * app.py: DialogueSystem *)
(* ===================================================================== *)

Module App.
Import AudioUtil.

Local Open Scope string_scope.

(** [needle in hay] on [str]. *)
Fixpoint contains (needle hay : string) : bool :=
  String.prefix needle hay ||
  match hay with
  | EmptyString => false
  | String _ rest => contains needle rest
  end.

(** ** Data *)

Inductive role := System | User | Assistant.

(** An entry [{"role": r, "content": c}] of [conversation_history]. *)
Record turn := Turn { turn_role : role; content : string }.

(** A connection object returned by [client.beta.realtime.connect]. *)
Inductive conn := Conn (id : nat).

(** Messages sent on a realtime connection. *)
Inductive command :=
| SessionUpdate (voice instructions : string)
| ResponseCancel
| InputAudioBufferCommit
| ResponseCreate (instructions : option string)
| ConversationItemCreate (text : string)
| InputAudioBufferAppend (audio : string).

(** Calls that leave the process, in the order they are made.  [Sleep] is
    [asyncio.sleep], in milliseconds. *)
Inductive effect :=
| Connect (c : conn)
| Close (c : conn)
| Send (c : conn) (cmd : command)
| ChatCompletionsCreate (messages : list turn)
| Sleep (ms : Z)
| MicOpen
| MicClose.

#[export] Instance role_eq_dec : EqDecision role.
Proof. solve_decision. Defined.
#[export] Instance turn_eq_dec : EqDecision turn.
Proof. solve_decision. Defined.
#[export] Instance conn_eq_dec : EqDecision conn.
Proof. solve_decision. Defined.
#[export] Instance command_eq_dec : EqDecision command.
Proof. solve_decision. Defined.
#[export] Instance effect_eq_dec : EqDecision effect.
Proof. solve_decision. Defined.

(** Inbound events, by [event.type]. *)
Inductive event :=
| SessionCreated (session_id : string)                 (* session.created *)
| SessionUpdated                                       (* session.updated *)
| ResponseAudioDelta (item_id delta : string)          (* response.audio.delta *)
| ResponseAudioTranscriptDelta (item_id delta : string)
                                     (* response.audio_transcript.delta *)
| ResponseAudioTranscriptDone (item_id : string)
                                     (* response.audio_transcript.done *)
| InputAudioBufferSpeechStarted      (* input_audio_buffer.speech_started *)
| InputAudioBufferSpeechDone         (* input_audio_buffer.speech_done *)
| InputAudioBufferCommitDone         (* input_audio_buffer.commit.done *)
| ResponseDone                                         (* response.done *)
| Error (error : string)             (* error; carries str(event.error) *)
| Unhandled (type : string).

(** The fields of [DialogueSystem] that the pipeline reads or writes, and
    [trace], the calls made so far, oldest first. *)
Record DialogueSystem := mkDS {
  npc_message : string;
  conversation_history : list turn;
  is_npc_responding : bool;
  current_npc : option string;
  realtime_conn : option conn;
  speech_mode : bool;
  last_audio_item_id : option string;
  acc_items : gmap string string;
  audio_player : AudioPlayerAsync;
  sent_audio_once : bool;
  speech_active : bool;
  realtime_initialized : bool;
  trace : list effect
}.

Definition set_npc_message (v : string) (d : DialogueSystem) :=
  mkDS v (conversation_history d) (is_npc_responding d) (current_npc d)
    (realtime_conn d) (speech_mode d) (last_audio_item_id d) (acc_items d)
    (audio_player d) (sent_audio_once d) (speech_active d)
    (realtime_initialized d) (trace d).
Definition set_conversation_history (v : list turn) (d : DialogueSystem) :=
  mkDS (npc_message d) v (is_npc_responding d) (current_npc d)
    (realtime_conn d) (speech_mode d) (last_audio_item_id d) (acc_items d)
    (audio_player d) (sent_audio_once d) (speech_active d)
    (realtime_initialized d) (trace d).
Definition set_is_npc_responding (v : bool) (d : DialogueSystem) :=
  mkDS (npc_message d) (conversation_history d) v (current_npc d)
    (realtime_conn d) (speech_mode d) (last_audio_item_id d) (acc_items d)
    (audio_player d) (sent_audio_once d) (speech_active d)
    (realtime_initialized d) (trace d).
Definition set_realtime_conn (v : option conn) (d : DialogueSystem) :=
  mkDS (npc_message d) (conversation_history d) (is_npc_responding d)
    (current_npc d) v (speech_mode d) (last_audio_item_id d) (acc_items d)
    (audio_player d) (sent_audio_once d) (speech_active d)
    (realtime_initialized d) (trace d).
Definition set_speech_mode (v : bool) (d : DialogueSystem) :=
  mkDS (npc_message d) (conversation_history d) (is_npc_responding d)
    (current_npc d) (realtime_conn d) v (last_audio_item_id d) (acc_items d)
    (audio_player d) (sent_audio_once d) (speech_active d)
    (realtime_initialized d) (trace d).
Definition set_last_audio_item_id (v : option string) (d : DialogueSystem) :=
  mkDS (npc_message d) (conversation_history d) (is_npc_responding d)
    (current_npc d) (realtime_conn d) (speech_mode d) v (acc_items d)
    (audio_player d) (sent_audio_once d) (speech_active d)
    (realtime_initialized d) (trace d).
Definition set_acc_items (v : gmap string string) (d : DialogueSystem) :=
  mkDS (npc_message d) (conversation_history d) (is_npc_responding d)
    (current_npc d) (realtime_conn d) (speech_mode d) (last_audio_item_id d) v
    (audio_player d) (sent_audio_once d) (speech_active d)
    (realtime_initialized d) (trace d).
Definition set_audio_player (v : AudioPlayerAsync) (d : DialogueSystem) :=
  mkDS (npc_message d) (conversation_history d) (is_npc_responding d)
    (current_npc d) (realtime_conn d) (speech_mode d) (last_audio_item_id d)
    (acc_items d) v (sent_audio_once d) (speech_active d)
    (realtime_initialized d) (trace d).
Definition set_sent_audio_once (v : bool) (d : DialogueSystem) :=
  mkDS (npc_message d) (conversation_history d) (is_npc_responding d)
    (current_npc d) (realtime_conn d) (speech_mode d) (last_audio_item_id d)
    (acc_items d) (audio_player d) v (speech_active d)
    (realtime_initialized d) (trace d).
Definition set_speech_active (v : bool) (d : DialogueSystem) :=
  mkDS (npc_message d) (conversation_history d) (is_npc_responding d)
    (current_npc d) (realtime_conn d) (speech_mode d) (last_audio_item_id d)
    (acc_items d) (audio_player d) (sent_audio_once d) v
    (realtime_initialized d) (trace d).
Definition set_realtime_initialized (v : bool) (d : DialogueSystem) :=
  mkDS (npc_message d) (conversation_history d) (is_npc_responding d)
    (current_npc d) (realtime_conn d) (speech_mode d) (last_audio_item_id d)
    (acc_items d) (audio_player d) (sent_audio_once d) (speech_active d)
    v (trace d).
Definition log (e : effect) (d : DialogueSystem) :=
  mkDS (npc_message d) (conversation_history d) (is_npc_responding d)
    (current_npc d) (realtime_conn d) (speech_mode d) (last_audio_item_id d)
    (acc_items d) (audio_player d) (sent_audio_once d) (speech_active d)
    (realtime_initialized d) (trace d ++ [e]).

(** [DialogueSystem.__init__], the pipeline's part of it. *)
Definition __init__ : DialogueSystem :=
  mkDS "" [] false None None false None ∅ AudioUtil.__init__ false false false [].

(** ** Environment *)

(** [base64.b64decode] ([None] for [binascii.Error]) and
    [base64.b64encode(...).decode("utf-8")], taken as given. *)
Record codec := Codec {
  b64decode : string -> option (list byte);
  b64encode : list byte -> string
}.

(** What the remote side answers while one handler runs: whether sending a
    command raises, and what [chat.completions.create] returns (the
    [message.content] of each choice) or raises. *)
Record remote := Remote {
  send_raises : command -> option exn;
  chat_completions : list turn -> result (list string)
}.

(** ** Methods *)

Definition on_player {A} (m : M AudioPlayerAsync A) : M DialogueSystem A :=
  zoom audio_player set_audio_player m.

(** [await conn.<resource>.<method>(...)]: the call is made, then raises
    or returns. *)
Definition send (rm : remote) (c : conn) (cmd : command) : M DialogueSystem unit :=
  (modify (log (Send c cmd)) ;;;
   match send_raises rm cmd with
   | Some e => raise e
   | None => ret tt
   end)%py.

(** [self.realtime_conn.<attr>]: attribute access on [None] raises. *)
Definition the_realtime_conn : M DialogueSystem conn :=
  (c <- gets realtime_conn ;;
   match c with
   | Some c => ret c
   | None => raise (AttributeError "'NoneType' object has no attribute")
   end)%py.

Definition sleep (ms : Z) : M DialogueSystem unit := modify (log (Sleep ms)).

Definition append_turn (t : turn) : M DialogueSystem unit :=
  modify (fun d => set_conversation_history (conversation_history d ++ [t]) d).

Definition cancel_ongoing_response (rm : remote) : M DialogueSystem unit :=
  (responding <- gets is_npc_responding ;;
   (* [or self.audio_player.is_playing()]: evaluated only when the flag is
      false, and AudioPlayerAsync defines no such method *)
   cond <- (if responding then ret true
            else raise (AttributeError
              "'AudioPlayerAsync' object has no attribute 'is_playing'")) ;;
   when cond
     (try_except
        (c <- gets realtime_conn ;;
         sm <- gets speech_mode ;;
         match c with
         | Some c => when sm (send rm c ResponseCancel)
         | None => ret tt
         end)
        (fun _ => ret tt) ;;;
      on_player stop ;;;
      on_player reset_frame_count ;;;
      modify (set_npc_message "") ;;;
      modify (set_acc_items ∅) ;;;
      modify (set_last_audio_item_id None) ;;;
      modify (set_is_npc_responding false)))%py.

Definition handle_realtime_event (cd : codec) (rm : remote) (ev : event)
    : M DialogueSystem unit :=
  try_except
    (match ev with
     | SessionCreated _ => ret tt
     | SessionUpdated => ret tt
     | ResponseAudioDelta item_id delta =>
         modify (set_is_npc_responding true) ;;;
         last <- gets last_audio_item_id ;;
         when (negb (bool_decide (Some item_id = last)))
           (on_player reset_frame_count ;;;
            modify (set_last_audio_item_id (Some item_id))) ;;;
         bytes_data <- match b64decode cd delta with
                       | Some b => ret b
                       | None => raise (BinasciiError "Incorrect padding")
                       end ;;
         on_player (add_data bytes_data)
     | ResponseAudioTranscriptDelta item_id delta =>
         acc <- gets acc_items ;;
         let so_far := default "" (acc !! item_id) ++ delta in
         modify (set_acc_items (<[item_id := so_far]> acc))
     | ResponseAudioTranscriptDone item_id =>
         acc <- gets acc_items ;;
         modify (set_npc_message (default "" (acc !! item_id))) ;;;
         msg <- gets npc_message ;;
         append_turn (Turn Assistant msg) ;;;
         modify (set_is_npc_responding false)
     | InputAudioBufferSpeechStarted =>
         modify (set_speech_active true) ;;;
         responding <- gets is_npc_responding ;;
         when responding (cancel_ongoing_response rm) ;;;
         on_player stop ;;;
         modify (set_npc_message "") ;;;
         modify (set_acc_items ∅) ;;;
         append_turn (Turn User "[Speech input started]")
     | InputAudioBufferSpeechDone =>
         modify (set_speech_active false) ;;;
         c <- the_realtime_conn ;;
         send rm c InputAudioBufferCommit ;;;
         c <- the_realtime_conn ;;
         send rm c (ResponseCreate None)
     | InputAudioBufferCommitDone => ret tt
     | ResponseDone => modify (set_is_npc_responding false)
     | Error error =>
         if contains "response_cancel_not_active" error then ret tt
         else
           modify (set_speech_mode false) ;;;
           modify (set_realtime_conn None) ;;;
           modify (set_realtime_initialized false)
     | Unhandled _ => ret tt
     end)%py
    (fun _ => modify (set_is_npc_responding false)).

(** ** Connecting: [initialize_realtime] *)

(** What one connection attempt meets: [connect] raises, or the connection
    opens, [session.update] raises or not, and the event iterator yields
    [inbound] (each event with what the remote side answers during its
    handler) and then ends, normally or by raising. *)
Inductive attempt_outcome :=
| ConnectRaises (e : exn)
| Connected (update : option exn) (inbound : list (remote * event))
    (stream_end : option exn).

Definition is_connect (e : effect) : bool :=
  match e with Connect _ => true | _ => false end.

(** The connection object made by the next call of [connect]. *)
Definition fresh_conn (d : DialogueSystem) : conn :=
  Conn (length (filter is_connect (trace d))).

Definition instructions_for (npc_name npc_role npc_tone : string) : string :=
  "You are " ++ npc_name ++ ", " ++ npc_role ++ " at Venture Builder AI. " ++
  "In your first response, say exactly 'Hello there, I am " ++ npc_name ++
  ", " ++ npc_role ++ " at Venture Builder AI.' " ++
  "Then ask how you can assist the user. For subsequent responses, do not reintroduce yourself. " ++
  "Address the user as 'you' or 'user', and respond naturally in a " ++
  npc_tone ++ " tone.".

(** [async for event in conn: await self.handle_realtime_event(event)] *)
Fixpoint handle_events (cd : codec) (inbound : list (remote * event))
    : M DialogueSystem unit :=
  match inbound with
  | [] => ret tt
  | (rm, ev) :: rest =>
      (handle_realtime_event cd rm ev ;;; handle_events cd rest)%py
  end.

(** The body of the [try] of one attempt. *)
Definition attempt_body (cd : codec) (oc : attempt_outcome)
    : M DialogueSystem unit :=
  (npc <- gets current_npc ;;
   let is_ceo := bool_decide (npc = Some "CEO") in
   let npc_name := if is_ceo then "Michael Chen" else "Sarah Chen" in
   let npc_role := if is_ceo then "CEO" else "HR Director" in
   let npc_tone := if is_ceo then "confident" else "warm" in
   let npc_voice := if is_ceo then "ballad" else "alloy" in
   let instructions := instructions_for npc_name npc_role npc_tone in
   c <- gets fresh_conn ;;
   modify (log (Connect c)) ;;;
   match oc with
   | ConnectRaises e => raise e
   | Connected update inbound stream_end =>
       (* async with ... as conn: the connection is closed on every exit *)
       try_finally
         (modify (set_realtime_conn (Some c)) ;;;
          modify (log (Send c (SessionUpdate npc_voice instructions))) ;;;
          match update with Some e => raise e | None => ret tt end ;;;
          modify (set_realtime_initialized true) ;;;
          handle_events cd inbound ;;;
          match stream_end with Some e => raise e | None => ret tt end)
         (modify (log (Close c)))
   end)%py.

Definition max_attempts : Z := 3.

(** The iterations [attempt], [attempt + 1], ... of
    [for attempt in range(max_attempts)], one per element of [todo];
    [outcomes attempt] is what the attempt meets. *)
Fixpoint attempts_from (cd : codec) (outcomes : Z -> attempt_outcome)
    (attempt : Z) (todo : nat) : M DialogueSystem unit :=
  match todo with
  | O => ret tt
  | S todo' =>
      (stop_now <-
         try_except
           (attempt_body cd (outcomes attempt) ;;; ret false)
           (fun _ =>
              modify (set_realtime_conn None) ;;;
              modify (set_realtime_initialized false) ;;;
              if bool_decide (attempt < max_attempts - 1)
              then sleep 2000 ;;; ret false
              else modify (set_speech_mode false) ;;; ret true) ;;
       if (stop_now : bool) then ret tt
       else attempts_from cd outcomes (attempt + 1) todo')%py
  end.

Definition initialize_realtime (cd : codec) (outcomes : Z -> attempt_outcome)
    : M DialogueSystem unit :=
  (modify (set_realtime_initialized false) ;;;
   attempts_from cd outcomes 0 (Z.to_nat max_attempts))%py.

(** ** Capturing: [record_mic_audio] *)

Definition SAMPLE_RATE : Z := 24000.
Definition CHANNELS : Z := 1.

(** [int(SAMPLE_RATE * 0.02)] *)
Definition read_size : Z := SAMPLE_RATE * 2 / 100.

Definition byte_of_Z (z : Z) : byte :=
  default x00 (Byte.of_N (Z.to_N (z mod 256))).

(** [data.tobytes()] of an [int16] array, little-endian. *)
Definition tobytes (data : list Z) : list byte :=
  concat (map (fun z => [byte_of_Z z; byte_of_Z (z mod 65536 / 256)]) data).

(** What one pass of the capture loop finds on the input device:
    [stream.read_available], and what [stream.read(read_size)] returns or
    raises. *)
Record mic_tick := MicTick {
  read_available : Z;
  read : result (list Z * bool)
}.

Inductive loop_ctl := Continue.

(** One pass of [while True] in [record_mic_audio]; it raises when the
    device or the connection does. *)
Definition mic_iteration (cd : codec) (rm : remote) (tk : mic_tick)
    : M DialogueSystem loop_ctl :=
  (sm <- gets speech_mode ;;
   c <- gets realtime_conn ;;
   ini <- gets realtime_initialized ;;
   if negb sm || negb (bool_decide (is_Some c)) || negb ini
   then sleep 100 ;;; ret Continue
   else if bool_decide (read_available tk < read_size)
   then sleep 10 ;;; ret Continue
   else
     match read tk with
     | Raise e => raise e
     | Ok (data, overflowed) =>
         if (overflowed : bool) then ret Continue
         else
           when (bool_decide (len data > 0))
             (let b64_audio := b64encode cd (tobytes data) in
              c <- the_realtime_conn ;;
              send rm c (InputAudioBufferAppend b64_audio) ;;;
              modify (set_sent_audio_once true)) ;;;
           sleep 0 ;;; ret Continue
     end)%py.

Fixpoint mic_loop (cd : codec) (ticks : list (remote * mic_tick))
    : M DialogueSystem unit :=
  match ticks with
  | [] => ret tt
  | (rm, tk) :: rest => (mic_iteration cd rm tk ;;; mic_loop cd rest)%py
  end.

(** How opening the input device goes: [sd.InputStream(...)] raises,
    [stream.start()] raises, or the stream runs. *)
Inductive mic_open := InputStreamRaises (e : exn) | StartRaises (e : exn) | MicRuns.

(** [record_mic_audio] over the passes of the loop made before the task is
    cancelled. *)
Definition record_mic_audio (cd : codec) (opening : mic_open)
    (ticks : list (remote * mic_tick)) : M DialogueSystem unit :=
  try_finally
    (try_except
       (match opening with
        | InputStreamRaises e => raise e
        | StartRaises e => modify (log MicOpen) ;;; raise e
        | MicRuns => modify (log MicOpen) ;;; mic_loop cd ticks
        end)
       (fun _ =>
          modify (set_speech_mode false) ;;;
          modify (set_realtime_initialized false)))%py
    (* if 'stream' in locals(): stream.stop(); stream.close() *)
    (match opening with
     | InputStreamRaises _ => ret tt
     | _ => modify (log MicClose)
     end).

(** ** Typed input: [send_message] *)

Definition apology : string :=
  "I apologize, but I'm having trouble connecting to our systems right now.".

Definition send_message (rm : remote) (text_input : string)
    : M DialogueSystem unit :=
  (history <- gets conversation_history ;;
   if bool_decide (history = []) then ret tt
   else
     try_except
       (sm <- gets speech_mode ;;
        c <- gets realtime_conn ;;
        ini <- gets realtime_initialized ;;
        if sm && bool_decide (is_Some c) && ini then
          responding <- gets is_npc_responding ;;
          when responding (cancel_ongoing_response rm) ;;;
          c <- the_realtime_conn ;;
          send rm c (ConversationItemCreate text_input) ;;;
          c <- the_realtime_conn ;;
          send rm c (ResponseCreate None)
        else
          messages <- gets conversation_history ;;
          modify (log (ChatCompletionsCreate messages)) ;;;
          match chat_completions rm messages with
          | Raise e => raise e
          | Ok [] => raise (IndexError "list index out of range")
          | Ok (ai_message :: _) =>
              append_turn (Turn Assistant ai_message) ;;;
              modify (set_npc_message ai_message) ;;;
              modify (set_is_npc_responding true)
          end)
       (fun _ =>
          modify (set_npc_message apology) ;;;
          modify (set_is_npc_responding false)))%py.

(** ** Executions *)

(** What the event loop runs, one piece at a time: a pass of the capture
    loop, the handler of an inbound event, or a [send_message]. *)
Inductive step :=
| MicPass (rm : remote) (tk : mic_tick)
| Inbound (rm : remote) (ev : event)
| Typed (rm : remote) (text_input : string).

(** A pass of the capture loop inside its [try]: when it raises, the
    handler and the [finally] run and the loop is over ([false]). *)
Definition mic_pass (cd : codec) (rm : remote) (tk : mic_tick)
    : M DialogueSystem bool :=
  try_except
    (mic_iteration cd rm tk ;;; ret true)%py
    (fun _ =>
       modify (set_speech_mode false) ;;;
       modify (set_realtime_initialized false) ;;;
       modify (log MicClose) ;;; ret false)%py.

(** Runs [steps] from [d]; [mic_alive] tells whether the capture loop is
    still running. *)
Fixpoint run (cd : codec) (steps : list step) (mic_alive : bool)
    (d : DialogueSystem) : DialogueSystem :=
  match steps with
  | [] => d
  | MicPass rm tk :: rest =>
      if mic_alive then
        match mic_pass cd rm tk d with
        | (Ok alive, d') => run cd rest alive d'
        | (Raise _, d') => run cd rest false d'
        end
      else run cd rest false d
  | Inbound rm ev :: rest =>
      run cd rest mic_alive (handle_realtime_event cd rm ev d).2
  | Typed rm text_input :: rest =>
      run cd rest mic_alive (send_message rm text_input d).2
  end.

(** The append-audio commands in a trace. *)
Definition is_append (e : effect) : bool :=
  match e with Send _ (InputAudioBufferAppend _) => true | _ => false end.
Definition appends (d : DialogueSystem) : list effect :=
  filter is_append (trace d).

Definition sleeps (tr : list effect) : list Z :=
  omap (fun e => match e with Sleep ms => Some ms | _ => None end) tr.

Definition attempts_made (tr : list effect) : nat :=
  length (filter is_connect tr).

Definition is_close (e : effect) : bool :=
  match e with Close _ => true | _ => false end.

End App.

(* ===================================================================== *)
(** * Vocabulary of the statements *)
(* ===================================================================== *)

Module Playback.
Import AudioUtil.

(** All queued samples, in queue order. *)
Definition queued (p : AudioPlayerAsync) : list Z := concat (queue p).

(** [q'] is what is left of [q] once its first frames are consumed: a
    suffix of [q], or, when frame [k] was split into a used and an unused
    part, both non-empty, the unused part followed by the frames after
    [k]. *)
Definition remainder_of (q q' : list (list Z)) : Prop :=
  exists k : nat,
    q' = drop k q \/
    exists used rest : list Z,
      used <> [] /\ rest <> [] /\
      q !! k = Some (used ++ rest) /\ q' = rest :: drop (S k) q.

(** Total size of the blocks requested in a run. *)
Definition requested (blocks : list Z) : nat :=
  foldr (fun frames acc => (Z.to_nat frames + acc)%nat) 0%nat blocks.

(** The invariant behind [add_data]'s start-on-enqueue. *)
Definition playing_means_active (p : AudioPlayerAsync) : Prop :=
  playing p = true -> stream_active p = true.

(** The calls the application and the output device make on a player;
    app.py never calls [terminate]. *)
Inductive player_call :=
| CallCallback (frames : Z)
| CallAddData (data : list byte)
| CallStart
| CallStop
| CallResetFrameCount.

Definition apply_call (c : player_call) (p : AudioPlayerAsync)
    : AudioPlayerAsync :=
  match c with
  | CallCallback frames =>
      match callback frames p with Some (_, p') => p' | None => p end
  | CallAddData data => (add_data data p).2
  | CallStart => (start p).2
  | CallStop => (stop p).2
  | CallResetFrameCount => (reset_frame_count p).2
  end.

(** The player after [calls], made in order on a new player. *)
Definition after_calls (calls : list player_call) : AudioPlayerAsync :=
  foldl (fun p c => apply_call c p) AudioUtil.__init__ calls.

Definition sample_player : AudioPlayerAsync :=
  mkPlayer [[1; 2; 3]; [4; 5]] [StreamStart] true 0.

End Playback.

Module Pipeline.
Import AudioUtil App.

Local Open Scope string_scope.

(** The error messages of the class the handler ignores. *)
Definition cancel_not_active (error : string) : bool :=
  contains "response_cancel_not_active" error.

(** A connection is open in a trace when it was connected and not closed. *)
Definition is_open (c : conn) (tr : list effect) : bool :=
  bool_decide (Connect c ∈ tr) && negb (bool_decide (Close c ∈ tr)).

(** The calls a handler or [send_message] can make: commands other than
    append-audio on the connection, and the fallback request. *)
Definition handler_effect (e : effect) : bool :=
  match e with
  | Send _ (InputAudioBufferAppend _) => false
  | Send _ _ => true
  | ChatCompletionsCreate _ => true
  | _ => false
  end.

(** The condition under which [send_message] and the capture loop use the
    realtime connection. *)
Definition streaming (d : DialogueSystem) : bool :=
  speech_mode d && bool_decide (is_Some (realtime_conn d))
  && realtime_initialized d.

(** An attempt fails when something in its [try] raises. *)
Definition fails (oc : attempt_outcome) : bool :=
  match oc with
  | ConnectRaises _ => true
  | Connected (Some _) _ _ => true
  | Connected None _ (Some _) => true
  | Connected None _ None => false
  end.

(** The session configuration an attempt sends from state [d]. *)
Definition session_update (d : DialogueSystem) : command :=
  let is_ceo := bool_decide (current_npc d = Some "CEO") in
  SessionUpdate (if is_ceo then "ballad" else "alloy")
    (instructions_for (if is_ceo then "Michael Chen" else "Sarah Chen")
       (if is_ceo then "CEO" else "HR Director")
       (if is_ceo then "confident" else "warm")).

(** Transcript deltas of one item, each with what the remote side answers
    while it is handled. *)
Definition transcript_deltas (item_id : string)
    (deltas : list (remote * string)) : list (remote * event) :=
  map (fun d => (d.1, ResponseAudioTranscriptDelta item_id d.2)) deltas.

Definition joined (deltas : list (remote * string)) : string :=
  foldr (fun d acc => d.2 ++ acc) "" deltas.

(** ** Sample data *)

(** [base64] on the payloads used in the examples. *)
Definition sample_codec : codec :=
  Codec
    (fun s => if bool_decide (s = "AQACAA==") then Some [x01; x00; x02; x00]
              else if bool_decide (s = "AwA=") then Some [x03; x00]
              else if bool_decide (s = "Aw==") then Some [x03]
              else None)
    (fun b => if bool_decide (b = [x01; x00; x02; x00]) then "AQACAA=="
              else if bool_decide (b = [x03; x00]) then "AwA="
              else "").

(** A remote side on which every call succeeds. *)
Definition quiet_remote : remote :=
  Remote (fun _ => None) (fun _ => Ok ["Of course."]).

(** A remote side on which every call raises. *)
Definition broken_remote : remote :=
  Remote (fun _ => Some (Exn "APIConnectionError" "Connection error."))
         (fun _ => Raise (Exn "APIConnectionError" "Connection error.")).

(** The agent is speaking item [r0] on an active session: two frames are
    queued and part of its transcript is accumulated. *)
Definition responding_state : DialogueSystem :=
  mkDS "Hello" [Turn System "You are Sarah Chen."] true (Some "HR")
    (Some (Conn 0)) true (Some "r0") {[ "r0" := "Hello" ]}
    (mkPlayer [[1; 2]; [7]] [StreamStart] true 480)
    true false true
    [Connect (Conn 0); Send (Conn 0) (SessionUpdate "alloy" "")].

(** Text-only mode: speech mode is off and there is no connection. *)
Definition text_state : DialogueSystem :=
  mkDS "" [Turn System "You are Sarah Chen."; Turn User "hi"] false (Some "HR")
    None false None ∅ AudioUtil.__init__ false false false [].

(** Speech mode is off while the session is still connected and
    configured. *)
Definition muted_state : DialogueSystem :=
  mkDS "" [Turn System "You are Sarah Chen."] false (Some "HR")
    (Some (Conn 0)) false None ∅ AudioUtil.__init__ false false true
    [Connect (Conn 0); Send (Conn 0) (SessionUpdate "alloy" "")].

Definition full_tick : mic_tick := MicTick 480 (Ok ([1; 2], false)).



(** Every connection attempt is refused. *)
Definition unreachable_remote : Z -> attempt_outcome :=
  fun _ => ConnectRaises (Exn "APIConnectionError" "Connection error.").

End Pipeline.

(* ===================================================================== *)
(** * app.py: the input side of DialogueSystem *)
(* ===================================================================== *)

Module Ui.
Import AudioUtil App.

Local Open Scope string_scope.

(** Coordinates are copied, never computed with; they are kept as
    rationals. *)
Definition coordinate : Type := QArith_base.Q.

(** [KeyError(key)]: its [str] is [repr(key)], the key between quotes. *)
Definition KeyError (repr_of_key : string) : exn := Exn "KeyError" repr_of_key.

(** Coroutines handed to the event loop with
    [asyncio.run_coroutine_threadsafe], in the order they are handed over.
    [Greeting] is [realtime_conn.response.create] with the greeting as
    instructions. *)
Inductive task :=
| InitializeRealtime
| RecordMicAudio
| CancelOngoingResponse
| SendMessage (text_input : string)
| Greeting (c : conn) (instructions : string).

#[export] Instance task_eq_dec : EqDecision task.
Proof. solve_decision. Defined.

(** [DialogueSystem] with the fields of its input side: [core] holds the
    fields of the speech pipeline. *)
Record Dialogue := mkDialogue {
  core : DialogueSystem;
  active : bool;
  input_active : bool;
  user_input : string;
  initial_player_pos : option (list coordinate);
  scheduled : list task
}.

Definition set_core (v : DialogueSystem) (d : Dialogue) :=
  mkDialogue v (active d) (input_active d) (user_input d)
    (initial_player_pos d) (scheduled d).
Definition set_active (v : bool) (d : Dialogue) :=
  mkDialogue (core d) v (input_active d) (user_input d)
    (initial_player_pos d) (scheduled d).
Definition set_input_active (v : bool) (d : Dialogue) :=
  mkDialogue (core d) (active d) v (user_input d)
    (initial_player_pos d) (scheduled d).
Definition set_user_input (v : string) (d : Dialogue) :=
  mkDialogue (core d) (active d) (input_active d) v
    (initial_player_pos d) (scheduled d).
Definition set_initial_player_pos (v : option (list coordinate)) (d : Dialogue) :=
  mkDialogue (core d) (active d) (input_active d) (user_input d) v
    (scheduled d).
Definition schedule (t : task) (d : Dialogue) :=
  mkDialogue (core d) (active d) (input_active d) (user_input d)
    (initial_player_pos d) (scheduled d ++ [t]).

Definition set_current_npc (v : option string) (d : DialogueSystem) :=
  mkDS (npc_message d) (conversation_history d) (is_npc_responding d) v
    (realtime_conn d) (speech_mode d) (last_audio_item_id d) (acc_items d)
    (audio_player d) (sent_audio_once d) (speech_active d)
    (realtime_initialized d) (trace d).

(** [DialogueSystem.__init__] *)
Definition __init__ : Dialogue :=
  mkDialogue App.__init__ false false "" None [].

Definition on_core {A} (m : M DialogueSystem A) : M Dialogue A :=
  zoom core set_core m.

(** [if self.realtime_conn: self.realtime_conn.close();
    self.realtime_conn = None; self.realtime_initialized = False]

    [close] is a coroutine function of the connection, and the three
    places that have these lines are plain [def] methods that call it
    without [await]: the call only builds a coroutine object, which is
    dropped without being run.  Nothing is sent and the connection is not
    closed; the reference to it is forgotten. *)
Definition forget_realtime_conn : M DialogueSystem unit :=
  (c <- gets realtime_conn ;;
   match c with
   | Some _ =>
       modify (set_realtime_conn None) ;;;
       modify (set_realtime_initialized false)
   | None => ret tt
   end)%py.

Definition base_prompt : string :=
  "Interaction Framework:
            - Maintain consistent personality throughout conversation
            - Remember previous context within the dialogue
            - Use natural speech patterns with occasional filler words
            - Show emotional intelligence in responses
            - Keep responses concise but meaningful (2-3 sentences)
            - React appropriately to both positive and negative interactions
            ".

Definition hr_prompt : string :=
  base_prompt ++ "
                You are Sarah Chen, HR Director at Venture Builder AI. Core traits:
                - Warm and approachable
                - Focus on employee well-being and company culture
            ".

Definition ceo_prompt : string :=
  base_prompt ++ "
                You are Michael Chen, CEO of Venture Builder AI. Core traits:
                - Confident and visionary
                - Focus on innovation and leadership
            ".

(** The dict [initial_message]; [None] is a missing key. *)
Definition initial_message (npc_role : string) : option string :=
  if bool_decide (npc_role = "HR") then
    Some "Hello there, I am Sarah Chen, HR Director at Venture Builder AI. How can I assist you today?"
  else if bool_decide (npc_role = "CEO") then
    Some "Hello there, I am Michael Chen, CEO at Venture Builder AI. What can I do for you today?"
  else None.

(** [start_conversation(npc_role, player_pos)]; [player_pos] is [None] or
    a list.  [repr] is Python's [repr] on [str], taken as given: it is
    what [str(e)] shows of the missing key of a [KeyError]. *)
Definition start_conversation (repr : string -> string) (npc_role : string)
    (player_pos : option (list coordinate)) : M Dialogue unit :=
  (modify (set_active true) ;;;
   modify (set_input_active true) ;;;
   on_core (modify (set_current_npc (Some npc_role))) ;;;
   pos <- match player_pos with
          | None | Some [] =>
              ret [QArith_base.Qmake 0 1; QArith_base.Qmake 1 2;
                   QArith_base.Qmake 0 1]
          | Some (p0 :: p1 :: p2 :: _) => ret [p0; p1; p2]
          | Some _ => raise (IndexError "list index out of range")
          end ;;
   modify (set_initial_player_pos (Some pos)) ;;;
   (* if self.audio_player: the player object is always truthy *)
   on_core (on_player stop ;;;
            on_player reset_frame_count ;;;
            modify (set_last_audio_item_id None) ;;;
            modify (set_acc_items ∅)) ;;;
   on_core forget_realtime_conn ;;;
   modify (schedule InitializeRealtime) ;;;
   modify (schedule RecordMicAudio) ;;;
   let system_prompt :=
     if bool_decide (npc_role = "HR") then hr_prompt else ceo_prompt in
   msg <- match initial_message npc_role with
          | Some m => ret m
          | None => raise (KeyError (repr npc_role))
          end ;;
   on_core (modify (set_npc_message msg)) ;;;
   on_core (modify (set_conversation_history [Turn System system_prompt])) ;;;
   c <- on_core (gets realtime_conn) ;;
   ini <- on_core (gets realtime_initialized) ;;
   match c with
   | Some c => when ini (msg <- on_core (gets npc_message) ;;
                         modify (schedule (Greeting c msg)))
   | None => ret tt
   end)%py.

(** The keys [handle_input] tells apart. *)
Inductive key := K_q | K_F5 | K_RETURN | K_BACKSPACE | K_other (code : Z).

#[export] Instance key_eq_dec : EqDecision key.
Proof. solve_decision. Defined.

(** What [handle_input] reads of a pygame event and of the keyboard:
    whether [event.type] is [KEYDOWN], [event.key], [event.unicode], and
    [pygame.key.get_pressed()[pygame.K_LSHIFT]]. *)
Record key_event := KeyEvent {
  keydown : bool;
  event_key : key;
  unicode : string;
  lshift : bool
}.

(** [str.strip] and [str.isprintable], taken as given. *)
Record str_ops := StrOps {
  strip : string -> string;
  isprintable : string -> bool
}.

(** A [str] is held as the bytes of its UTF-8 encoding, so that one
    character of the input line is one to four bytes.  [utf8_char cp] is the encoding of the code point [cp],
    for [cp] up to [0x10FFFF]; [utf8] encodes a sequence of them. *)
Definition utf8_char (cp : N) : string :=
  let b (n : N) := ascii_of_N n in
  let cont (n : N) := b (128 + n mod 64)%N in
  if (cp <? 128)%N then String (b cp) ""
  else if (cp <? 2048)%N then
    String (b (192 + cp / 64)%N) (String (cont cp) "")
  else if (cp <? 65536)%N then
    String (b (224 + cp / 4096)%N)
      (String (cont (cp / 64)%N) (String (cont cp) ""))
  else
    String (b (240 + cp / 262144)%N)
      (String (cont (cp / 4096)%N)
         (String (cont (cp / 64)%N) (String (cont cp) ""))).

Fixpoint utf8 (cps : list N) : string :=
  match cps with
  | [] => ""
  | cp :: rest => utf8_char cp ++ utf8 rest
  end.

(** The bytes [10xxxxxx], which continue the encoding of a code point. *)
Definition is_continuation (ch : ascii) : bool :=
  (128 <=? N_of_ascii ch)%N && (N_of_ascii ch <? 192)%N.

Fixpoint all_continuation (s : string) : bool :=
  match s with
  | EmptyString => true
  | String ch rest => is_continuation ch && all_continuation rest
  end.

(** [s[:-1]]: the string without its last code point, that is without the
    bytes from the last one that is not a continuation byte on. *)
Fixpoint but_last (s : string) : string :=
  match s with
  | EmptyString => EmptyString
  | String ch rest =>
      if all_continuation rest then EmptyString
      else String ch (but_last rest)
  end.

(** The dict [handle_input] returns on exit:
    [{"command": "move_player_back", "position": ...}]. *)
Inductive input_result :=
| MovePlayerBack (position : option (list coordinate)).

Definition handle_input (so : str_ops) (ev : key_event)
    : M Dialogue (option input_result) :=
  (act <- gets active ;;
   inp <- gets input_active ;;
   if negb act || negb inp then ret None
   else if negb (keydown ev) then ret None
   else if lshift ev && bool_decide (event_key ev = K_q) then
     modify (set_active false) ;;;
     modify (set_input_active false) ;;;
     on_core (modify (set_speech_mode false)) ;;;
     c <- on_core (gets realtime_conn) ;;
     when (bool_decide (is_Some c))
       (modify (schedule CancelOngoingResponse) ;;;
        on_core forget_realtime_conn) ;;;
     pos <- gets initial_player_pos ;;
     ret (Some (MovePlayerBack pos))
   else
     when (bool_decide (event_key ev = K_F5))
       (sm <- on_core (gets speech_mode) ;;
        on_core (modify (set_speech_mode (negb sm))) ;;;
        sm <- on_core (gets speech_mode) ;;
        if (sm : bool) then
          on_core (modify (set_sent_audio_once false)) ;;;
          c <- on_core (gets realtime_conn) ;;
          ini <- on_core (gets realtime_initialized) ;;
          when (negb (bool_decide (is_Some c)) || negb ini)
            (modify (schedule InitializeRealtime) ;;;
             modify (schedule RecordMicAudio))
        else
          modify (schedule CancelOngoingResponse) ;;;
          on_core (on_player stop) ;;;
          on_core (modify (set_speech_active false)) ;;;
          on_core forget_realtime_conn) ;;;
     text <- gets user_input ;;
     (if bool_decide (event_key ev = K_RETURN)
         && negb (bool_decide (strip so text = ""))
      then
        responding <- on_core (gets is_npc_responding) ;;
        when responding (modify (schedule CancelOngoingResponse)) ;;;
        on_core (append_turn (Turn User (strip so text))) ;;;
        modify (schedule (SendMessage (strip so text))) ;;;
        modify (set_user_input "")
      else if bool_decide (event_key ev = K_BACKSPACE) then
        modify (set_user_input (but_last text))
      else
        when (isprintable so (unicode ev))
          (modify (set_user_input (text ++ unicode ev)))) ;;;
     ret None)%py.

End Ui.

(* ===================================================================== *)
(** * audio_util.py: send_audio_worker_sounddevice *)
(* ===================================================================== *)

Module Worker.
Import App.

Local Open Scope string_scope.

(** The dicts sent on the connection, by their [type]. *)
Inductive message :=
| Append (audio : string)       (* input_audio_buffer.append *)
| Commit                        (* input_audio_buffer.commit *)
| ResponseCreate.               (* response.create, with an empty response *)

(** What the worker does outside itself, in order. *)
Inductive effect :=
| QueryDevices
| StreamStart
| StartSend
| Send (m : message)
| Yield                         (* asyncio.sleep(0) *)
| StreamStop
| StreamClose.

#[export] Instance message_eq_dec : EqDecision message.
Proof. solve_decision. Defined.
#[export] Instance effect_eq_dec : EqDecision effect.
Proof. solve_decision. Defined.

(** The local [sent_audio] and the effects so far. *)
Record worker := mkWorker {
  sent_audio : bool;
  trace : list effect
}.

Definition set_sent_audio (v : bool) (w : worker) := mkWorker v (trace w).
Definition log (e : effect) (w : worker) :=
  mkWorker (sent_audio w) (trace w ++ [e]).

(** The optional callbacks: whether [should_send] and [start_send] are
    given. *)
Record callbacks := Callbacks {
  has_should_send : bool;
  has_start_send : bool
}.

(** One pass of the loop: [stream.read_available], what
    [stream.read(read_size)] returns or raises, what [should_send()]
    answers, and whether [start_send()] and the sends raise. *)
Record tick := Tick {
  read_available : Z;
  read : result (list Z * bool);
  should_send : bool;
  start_send_raises : option exn;
  send_raises : message -> option exn
}.

Definition send (tk : tick) (m : message) : M worker unit :=
  (modify (log (Send m)) ;;;
   match send_raises tk m with
   | Some e => raise e
   | None => ret tt
   end)%py.

Definition iteration (cd : codec) (cb : callbacks) (tk : tick)
    : M worker unit :=
  (if bool_decide (read_available tk < read_size)
   then modify (log Yield)
   else
     match read tk with
     | Raise e => raise e
     | Ok (data, _) =>
         sent <- gets sent_audio ;;
         (if (if has_should_send cb then should_send tk else true) then
            when (negb sent && has_start_send cb)
              (modify (log StartSend) ;;;
               match start_send_raises tk with
               | Some e => raise e
               | None => ret tt
               end) ;;;
            send tk (Append (b64encode cd (tobytes data))) ;;;
            modify (set_sent_audio true)
          else if sent then
            send tk Commit ;;;
            send tk ResponseCreate ;;;
            modify (set_sent_audio false)
          else ret tt) ;;;
         modify (log Yield)
     end)%py.

Fixpoint loop (cd : codec) (cb : callbacks) (ticks : list tick)
    : M worker unit :=
  match ticks with
  | [] => ret tt
  | tk :: rest => (iteration cd cb tk ;;; loop cd cb rest)%py
  end.

(** [send_audio_worker_sounddevice] over the passes made before the task
    is cancelled. *)
Definition send_audio_worker_sounddevice (cd : codec) (cb : callbacks)
    (opening : mic_open) (ticks : list tick) : M worker unit :=
  (modify (set_sent_audio false) ;;;
   modify (log QueryDevices) ;;;
   match opening with
   | InputStreamRaises e => raise e
   | StartRaises e => raise e
   | MicRuns =>
       modify (log StreamStart) ;;;
       try_finally (loop cd cb ticks)
         (modify (log StreamStop) ;;; modify (log StreamClose))
   end)%py.

Definition start : worker := mkWorker false [].

(** The messages and [start_send] calls in a trace. *)
Definition is_protocol (e : effect) : bool :=
  match e with Send _ | StartSend => true | _ => false end.
Definition protocol (tr : list effect) : list effect :=
  filter is_protocol tr.

(** Where the worker stands in a burst of audio. *)
Inductive phase := Idle | Started | Sending | Committed.

(** The bursts the worker may send: [start_send] first when that callback
    is given ([with_start]), one or more appends, then a commit followed
    at once by a response request. *)
Definition phase_step (with_start : bool) (ph : phase) (e : effect)
    : option phase :=
  match ph, e with
  | Idle, StartSend => if with_start then Some Started else None
  | Idle, Send (Append _) => if with_start then None else Some Sending
  | Started, Send (Append _) => Some Sending
  | Sending, Send (Append _) => Some Sending
  | Sending, Send Commit => Some Committed
  | Committed, Send ResponseCreate => Some Idle
  | _, _ => None
  end.

Fixpoint phase_after (with_start : bool) (ph : phase) (tr : list effect)
    : option phase :=
  match tr with
  | [] => Some ph
  | e :: rest =>
      match phase_step with_start ph e with
      | Some ph' => phase_after with_start ph' rest
      | None => None
      end
  end.

(** The phase the local [sent_audio] stands for between two passes. *)
Definition phase_of (sent : bool) : phase :=
  if sent then Sending else Idle.

Definition is_stream_effect (e : effect) : bool :=
  match e with StreamStart | StreamStop | StreamClose => true | _ => false end.

Definition is_commit (e : effect) : bool :=
  match e with Send Commit | Send ResponseCreate => true | _ => false end.

End Worker.

(* ===================================================================== *)
(** * app.py: DialogueSystem.render_text *)
(* ===================================================================== *)

Module Render.

Local Open Scope string_scope.
Local Open Scope list_scope.

Definition WINDOW_WIDTH : Z := 800.
Definition max_width : Z := WINDOW_WIDTH - 40.
Definition line_height : Z := 25.

(** [' '.join(words)] *)
Fixpoint join (words : list string) : string :=
  match words with
  | [] => ""
  | [w] => w
  | w :: rest => (w ++ " " ++ join rest)%string
  end.

(** The font and [str.split], taken as given: [text_width s] is
    [self.font.render(s, True, text_color).get_width()]. *)
Record font := Font {
  text_width : string -> Z;
  split : string -> list string
}.

(** The body of [for word in words], on [lines], [current_line] and
    [current_width]. *)
Definition wrap_word (f : font)
    (st : list string * list string * Z) (word : string)
    : list string * list string * Z :=
  let '(lines, current_line, current_width) := st in
  let word_width := text_width f (word ++ " ")%string in
  if bool_decide (current_width + word_width <= max_width)
  then (lines, current_line ++ [word], current_width + word_width)
  else (lines ++ [join current_line], [word], word_width).

(** The lines [render_text] draws. *)
Definition wrap (f : font) (words : list string) : list string :=
  let '(lines, current_line, _) := foldl (wrap_word f) ([], [], 0) words in
  match current_line with
  | [] => lines
  | _ => lines ++ [join current_line]
  end.

(** [render_text(surface, text, x, y)]: the lines blitted, each with its
    position, and the value returned. *)
Definition render_text (f : font) (text : string) (x y : Z)
    : list (string * (Z * Z)) * Z :=
  let lines := wrap f (split f text) in
  (imap (fun i line => (line, (x, y + Z.of_nat i * line_height))) lines,
   len lines * line_height).

(** The same loop keeping each line as its list of words. *)
Definition group_word (f : font)
    (st : list (list string) * list string * Z) (word : string)
    : list (list string) * list string * Z :=
  let '(groups, current_line, current_width) := st in
  let word_width := text_width f (word ++ " ")%string in
  if bool_decide (current_width + word_width <= max_width)
  then (groups, current_line ++ [word], current_width + word_width)
  else (groups ++ [current_line], [word], word_width).

Definition groups (f : font) (words : list string) : list (list string) :=
  let '(gs, current_line, _) := foldl (group_word f) ([], [], 0) words in
  match current_line with
  | [] => gs
  | _ => gs ++ [current_line]
  end.

(** The width the loop counts for a line: each word with its space. *)
Definition counted_width (f : font) (line : list string) : Z :=
  foldr (fun w acc => text_width f (w ++ " ")%string + acc) 0 line.

(** What the loop keeps true of the lines closed so far and of the line
    being filled. *)
Definition wrap_inv (f : font)
    (st : list (list string) * list string * Z) : Prop :=
  let '(gs, current_line, current_width) := st in
  current_width = counted_width f current_line /\
  ((2 <= length current_line)%nat -> current_width <= max_width) /\
  Forall (fun g => (2 <= length g)%nat -> counted_width f g <= max_width) gs /\
  (forall i g, gs !! S i = Some g -> g <> []) /\
  (gs <> [] -> current_line <> []).

End Render.

(* ===================================================================== *)
(** * Vocabulary of the further statements *)
(* ===================================================================== *)

Module Coverage.
Import AudioUtil App Pipeline Ui.

Local Open Scope string_scope.

(** [int16] values. *)
Definition is_int16 (z : Z) : Prop := -32768 <= z <= 32767.

(** [add_data] for each chunk, in order. *)
Fixpoint add_all (chunks : list (list byte)) : M AudioPlayerAsync unit :=
  match chunks with
  | [] => ret tt
  | data :: rest => (add_data data ;;; add_all rest)%py
  end.

(** The sample arrays of the chunks; [None] when one has an odd size. *)
Fixpoint decode_all (chunks : list (list byte)) : option (list (list Z)) :=
  match chunks with
  | [] => Some []
  | data :: rest =>
      match np_frombuffer_int16 data, decode_all rest with
      | Some samples, Some more => Some (samples :: more)
      | _, _ => None
      end
  end.

Definition is_session_update (e : App.effect) : bool :=
  match e with App.Send _ (SessionUpdate _ _) => true | _ => false end.

Definition is_mic_open (e : App.effect) : bool :=
  match e with MicOpen => true | _ => false end.
Definition is_mic_close (e : App.effect) : bool :=
  match e with MicClose => true | _ => false end.

(** The attempts among [0], [1] that fail: the ones followed by a delay. *)
Definition early_failures (outcomes : Z -> attempt_outcome) : nat :=
  ((if fails (outcomes 0%Z) then 1 else 0)
   + (if fails (outcomes 1%Z) then 1 else 0))%nat.

(** A connection is established when [connect] returns. *)
Definition established (oc : attempt_outcome) : bool :=
  match oc with Connected _ _ _ => true | ConnectRaises _ => false end.

Definition connections_established (outcomes : Z -> attempt_outcome) : nat :=
  length (filter (fun i => established (outcomes i)) [0%Z; 1%Z; 2%Z]).

(** The same counts over the attempts [attempt], ..., [attempt + todo - 1]. *)
Fixpoint delays_from (outcomes : Z -> attempt_outcome) (attempt : Z)
    (todo : nat) : nat :=
  match todo with
  | O => 0
  | S todo' =>
      ((if fails (outcomes attempt) && bool_decide (attempt < max_attempts - 1)%Z
        then 1 else 0)
       + delays_from outcomes (attempt + 1)%Z todo')%nat
  end.

Fixpoint established_from (outcomes : Z -> attempt_outcome) (attempt : Z)
    (todo : nat) : nat :=
  match todo with
  | O => 0
  | S todo' =>
      ((if established (outcomes attempt) then 1 else 0)
       + established_from outcomes (attempt + 1)%Z todo')%nat
  end.

(** What a pass of the capture loop forwards from state [d]: the chunk
    read, encoded, when the pipeline is streaming, a whole chunk is
    available, the read did not overflow and the chunk is not empty. *)
Definition forwarded (cd : codec) (tk : mic_tick) (d : DialogueSystem)
    : list App.effect :=
  match realtime_conn d, read tk with
  | Some c, Ok (data, false) =>
      if streaming d && bool_decide (read_size <= read_available tk)%Z
         && bool_decide (data <> [])
      then [App.Send c (InputAudioBufferAppend (b64encode cd (tobytes data)))]
      else []
  | _, _ => []
  end.

(** A position [start_conversation] cannot index: a list of one or two
    coordinates. *)
Definition short_position (player_pos : option (list coordinate)) : bool :=
  match player_pos with
  | Some [_] | Some [_; _] => true
  | _ => false
  end.

(** ASCII [strip] and [isprintable], for the examples. *)
Definition sample_str_ops : str_ops :=
  StrOps
    (fun s => if bool_decide (s = "  ") then ""
              else if bool_decide (s = " hi ") then "hi" else s)
    (fun s => bool_decide (s = "") || bool_decide (s = "a")).

(** [repr] on a [str] of letters: the string between single quotes. *)
Definition sample_repr (s : string) : string := "'" ++ s ++ "'".

(** [base64] that also takes a payload without any character of the
    alphabet: [b64decode] discards such characters, and decodes what is
    left, here nothing. *)
Definition lenient_codec : codec :=
  Codec (fun s => if bool_decide (s = "!!!!") then Some []
                  else b64decode sample_codec s)
        (b64encode sample_codec).

(** Code points are below [0x110000]. *)
Definition is_code_point (cp : N) : Prop := (cp < 1114112)%N.

(** The dialogue with the HR director is open and the agent is speaking. *)
Definition open_dialogue : Dialogue :=
  mkDialogue responding_state true true "hello"
    (Some [QArith_base.Qmake 1 1; QArith_base.Qmake 1 2;
           QArith_base.Qmake 2 1]) [].

(** Every word is 100 pixels wide, except [wide], which is 900. *)
Definition sample_font : Render.font :=
  Render.Font (fun s => if bool_decide (s = "wide ") then 900 else 100)
              (fun s => if bool_decide (s = "wide a b") then ["wide"; "a"; "b"]
                        else if bool_decide (s = "") then [] else [s]).

Definition sample_tick (should : bool) : Worker.tick :=
  Worker.Tick 480 (Ok ([1; 2], false)) should None (fun _ => None).

End Coverage.

(* ===================================================================== *)
(** * Playback buffer: proofs *)
(* ===================================================================== *)

(** Unfolds the monad's combinators, in the goal or in a hypothesis. *)
Ltac py_unfold :=
  cbv [bind ret raise modify gets when try_except try_finally zoom].
Tactic Notation "py_unfold" "in" hyp(H) :=
  cbv [bind ret raise modify gets when try_except try_finally zoom] in H.

Module PlaybackProofs.
Import AudioUtil Playback.

Lemma len_app {A} (l1 l2 : list A) : len (l1 ++ l2) = len l1 + len l2.
Proof. unfold len. rewrite length_app. lia. Qed.

Lemma slice_to_pos {A} (n : Z) (l : list A) :
  0 <= n -> slice_to n l = take (Z.to_nat n) l.
Proof. intros Hn. unfold slice_to. destruct (Z.leb_spec 0 n); [done | lia]. Qed.

Lemma slice_from_pos {A} (n : Z) (l : list A) :
  0 <= n -> slice_from n l = drop (Z.to_nat n) l.
Proof. intros Hn. unfold slice_from. destruct (Z.leb_spec 0 n); [done | lia]. Qed.

(** Once the block is full, or the queue is empty, the loop is over,
    whatever fuel is left. *)
Lemma callback_loop_exit fuel frames data q :
  ~ (len data < frames) \/ q = [] ->
  callback_loop fuel frames data q = Some (data, q).
Proof.
  intros H. destruct fuel; simpl.
  - destruct H as [H | ->].
    + rewrite bool_decide_eq_false_2 by done. done.
    + rewrite andb_comm. done.
  - destruct H as [H | ->].
    + rewrite bool_decide_eq_false_2 by done. done.
    + rewrite andb_comm. done.
Qed.

(** The loop with enough fuel: it moves the first [frames - len data]
    queued samples to [data] and leaves the rest queued. *)
Lemma callback_loop_spec q : forall fuel frames data,
  (length q < fuel)%nat ->
  exists q',
    callback_loop fuel frames data q
      = Some (data ++ take (Z.to_nat (frames - len data)) (concat q), q') /\
    concat q' = drop (Z.to_nat (frames - len data)) (concat q) /\
    remainder_of q q'.
Proof.
  induction q as [| item rest IH]; intros fuel frames data Hfuel.
  - exists []. rewrite callback_loop_exit by auto. simpl.
    rewrite take_nil, app_nil_r, drop_nil. repeat split.
    exists 0%nat. by left.
  - destruct (decide (len data < frames)) as [Hlt | Hge].
    2:{ exists (item :: rest). rewrite callback_loop_exit by auto.
        replace (Z.to_nat (frames - len data)) with 0%nat by lia.
        rewrite take_0, app_nil_r, drop_0. repeat split.
        exists 0%nat. by left. }
    destruct fuel as [| fuel]; [simpl in Hfuel; lia |].
    simpl in Hfuel. cbn [callback_loop].
    rewrite bool_decide_eq_true_2 by done.
    rewrite bool_decide_eq_true_2 by (unfold len; simpl; lia).
    cbn [andb]. set (n := Z.to_nat (frames - len data)).
    rewrite slice_to_pos, slice_from_pos by lia. fold n.
    destruct (decide (len item > frames - len data)) as [Hsplit | Hwhole].
    + rewrite bool_decide_eq_true_2 by done.
      assert (Hn : (n < length item)%nat) by (unfold len in *; lia).
      exists (drop n item :: rest).
      rewrite callback_loop_exit.
      2:{ left. rewrite len_app. unfold len at 2.
          rewrite length_take. unfold len in *. lia. }
      simpl. rewrite take_app_le, drop_app_le by lia.
      repeat split. exists 0%nat. right.
      exists (take n item), (drop n item). simpl.
      rewrite take_drop. repeat split; try done.
      * intros E. apply (f_equal length) in E.
        rewrite length_take in E. simpl in E. unfold len in *. lia.
      * intros E. apply (f_equal length) in E.
        rewrite length_drop in E. simpl in E. lia.
    + rewrite bool_decide_eq_false_2 by done.
      assert (Hn : (length item <= n)%nat) by (unfold len in *; lia).
      rewrite take_ge by done.
      destruct (IH fuel frames (data ++ item)) as (q' & Hrun & Hcat & Hrem);
        [lia |].
      rewrite len_app in Hrun, Hcat.
      replace (Z.to_nat (frames - (len data + len item)))
        with (n - length item)%nat in * by (unfold len in *; lia).
      exists q'. rewrite Hrun. simpl.
      rewrite take_app_ge, drop_app_ge by done.
      rewrite <- app_assoc. split; [done |]. split; [done |].
      destruct Hrem as [k [-> | (used & left & Hu & Hl & Hk & ->)]].
      * exists (S k). by left.
      * exists (S k). right. exists used, left. done.
Qed.

(** One call of [callback], stated on naturals: [n] is the block size and
    [m] the number of queued samples that fit in it. *)
Lemma callback_spec (frames : Z) (p : AudioPlayerAsync) :
  let n := Z.to_nat frames in
  let m := (length (queued p) `min` n)%nat in
  exists p',
    callback frames p
      = Some (take m (queued p) ++ replicate (n - m) 0, p') /\
    queued p' = drop m (queued p) /\
    remainder_of (queue p) (queue p') /\
    _frame_count p' = _frame_count p + Z.of_nat m /\
    playing p' = playing p /\ stream p' = stream p.
Proof.
  intros n m. unfold callback.
  destruct (callback_loop_spec (queue p) (S (length (queue p))) frames [])
    as (q' & Hrun & Hcat & Hrem); [lia |].
  rewrite Hrun. change (len []) with 0 in *. rewrite Z.sub_0_r in *.
  fold n in Hcat |- *. fold (queued p) in Hcat |- *. simpl.
  set (data := take n (queued p)).
  assert (Hlen : length data = m) by (unfold data; rewrite length_take; lia).
  assert (Htake : data = take m (queued p)).
  { unfold data, m. destruct (decide (length (queued p) <= n)%nat).
    - rewrite Nat.min_l by done. by rewrite !take_ge by lia.
    - by rewrite Nat.min_r by lia. }
  assert (Hdrop : drop n (queued p) = drop m (queued p)).
  { unfold m. destruct (decide (length (queued p) <= n)%nat).
    - rewrite Nat.min_l by done. by rewrite !drop_ge by lia.
    - by rewrite Nat.min_r by lia. }
  exists (set_frame_count (_frame_count p + len data) (set_queue q' p)).
  split; [| repeat split; simpl; try done].
  - f_equal. f_equal.
    destruct (decide (len data < frames)) as [Hpad | Hfull].
    + rewrite bool_decide_eq_true_2 by done. unfold np_zeros.
      rewrite <- Htake. f_equal. f_equal. unfold len. rewrite Hlen.
      unfold n. lia.
    + rewrite bool_decide_eq_false_2 by done. rewrite <- Htake.
      unfold len in Hfull. rewrite Hlen in Hfull.
      replace (n - m)%nat with 0%nat by (unfold n; lia).
      simpl. by rewrite app_nil_r.
  - unfold queued. simpl. unfold queued in Hdrop. by rewrite Hcat.
  - unfold len. by rewrite Hlen.
Qed.

Lemma replicate_app {A} (a b : nat) (x : A) :
  replicate a x ++ replicate b x = replicate (a + b) x.
Proof. by rewrite replicate_add. Qed.

(** A run of callbacks with no enqueue in between. *)
Lemma run_callbacks_spec (blocks : list Z) : forall p,
  let m := (length (queued p) `min` requested blocks)%nat in
  exists p',
    run_callbacks blocks p
      = Some (take m (queued p) ++ replicate (requested blocks - m) 0, p') /\
    queued p' = drop m (queued p).
Proof.
  induction blocks as [| frames blocks IH]; intros p; simpl.
  - exists p. rewrite Nat.min_0_r. by rewrite take_0, drop_0.
  - destruct (callback_spec frames p) as (p1 & Hcb & Hq1 & _).
    rewrite Hcb. destruct (IH p1) as (p2 & Hrun & Hq2). rewrite Hrun.
    exists p2. rewrite Hq1 in Hrun, Hq2 |- *. rewrite Hq2.
    rewrite length_drop in *.
    set (S := length (queued p)). set (n := Z.to_nat frames).
    set (F := requested blocks).
    destruct (decide (S <= n)%nat) as [Hunder | Hfull].
    + (* the queue runs dry within this block *)
      replace (S `min` n)%nat with S by lia.
      replace ((S - S) `min` F)%nat with 0%nat by lia.
      replace (S `min` (n + F))%nat with S by lia.
      rewrite take_0, drop_0, Nat.sub_0_r. simpl.
      split; [| done]. f_equal. f_equal.
      rewrite <- app_assoc. f_equal.
      rewrite replicate_app. f_equal. lia.
    + replace (S `min` n)%nat with n by lia.
      replace (n - n)%nat with 0%nat by lia. simpl. rewrite app_nil_r.
      rewrite drop_drop.
      replace (S `min` (n + F))%nat with (n + (S - n) `min` F)%nat by lia.
      split; [| done]. f_equal. f_equal.
      rewrite app_assoc, take_take_drop. f_equal. f_equal. lia.
Qed.

(** C1.  One invocation of the output callback with block size [frames],
    on any playback FIFO holding [S] samples in all, writes the first
    [min S frames] samples of the concatenation of the queued frames in
    queue order, followed by [frames - min S frames] zero samples; what is
    left in the FIFO is the rest of that concatenation, the unconsumed part
    of a split frame being put back at the front; the frame counter grows
    by the number of samples written.  Over a run of such invocations the
    blocks written, put end to end, are the [S] queued samples (as many as
    were requested) before any padding, and all padding is zero. *)
Theorem callback_drains_then_pads (p : AudioPlayerAsync) (frames : Z)
    (blocks : list Z) :
  let S := len (queued p) in
  let m := Z.to_nat (Z.min S frames) in
  let M := (length (queued p) `min` requested blocks)%nat in
  (exists p',
     callback frames p
       = Some (take m (queued p) ++ np_zeros (frames - Z.min S frames), p') /\
     queued p' = drop m (queued p) /\
     remainder_of (queue p) (queue p') /\
     _frame_count p' = _frame_count p + Z.of_nat m) /\
  (exists p',
     run_callbacks blocks p
       = Some (take M (queued p) ++ replicate (requested blocks - M) 0, p') /\
     queued p' = drop M (queued p)).
Proof.
  intros S m M. split.
  - destruct (callback_spec frames p) as (p' & Hcb & Hq & Hrem & Hcount & _).
    exists p'.
    assert (Hm : m = (length (queued p) `min` Z.to_nat frames)%nat)
      by (unfold m, S, len; lia).
    rewrite <- Hm in *. repeat split; try done.
    rewrite Hcb. unfold np_zeros.
    by replace (Z.to_nat frames - m)%nat
      with (Z.to_nat (frames - Z.min S frames)) by (unfold m, S, len; lia).
  - apply run_callbacks_spec.
Qed.

Example callback_splits_a_frame :
  callback 4 sample_player
    = Some ([1; 2; 3; 4], mkPlayer [[5]] [StreamStart] true 4).
Proof. reflexivity. Qed.

Example callback_pads_an_underrun :
  callback 4 (mkPlayer [[5]] [StreamStart] true 4)
    = Some ([5; 0; 0; 0], mkPlayer [] [StreamStart] true 5).
Proof. reflexivity. Qed.

(** ** Enqueueing *)

Lemma add_data_inv (data : list byte) (p p' : AudioPlayerAsync) :
  add_data data p = (Ok tt, p') ->
  exists np_data,
    np_frombuffer_int16 data = Some np_data /\
    p' = if playing p
         then set_queue (queue p ++ [np_data]) p
         else stream_do StreamStart
                (set_playing true (set_queue (queue p ++ [np_data]) p)).
Proof.
  unfold add_data. destruct (np_frombuffer_int16 data) as [np_data |] eqn:E.
  - intros H. exists np_data. split; [done |].
    unfold start in H. py_unfold in H. simpl in H.
    destruct (playing p); simpl in H; congruence.
  - intros H. discriminate H.
Qed.

Lemma playing_means_active_call (c : player_call) (p : AudioPlayerAsync) :
  playing_means_active p -> playing_means_active (apply_call c p).
Proof.
  unfold playing_means_active, stream_active. intros Hinv.
  destruct c as [frames | data | | |]; simpl.
  - destruct (callback_spec frames p) as (p' & Hcb & _ & _ & _ & Hpl & Hst).
    rewrite Hcb, Hpl, Hst. done.
  - unfold add_data. destruct (np_frombuffer_int16 data); [| done].
    unfold start. py_unfold. simpl.
    destruct (playing p) eqn:E; simpl; auto.
  - done.
  - done.
  - done.
Qed.

Lemma playing_means_active_after (calls : list player_call) :
  playing_means_active (after_calls calls).
Proof.
  unfold after_calls. induction calls as [| c calls IH] using rev_ind.
  - done.
  - rewrite foldl_app. simpl. by apply playing_means_active_call.
Qed.

(** C9.  When [add_data] returns, the sample array decoded from [data] is
    at the back of the queue (so the queue is not empty) and [playing] is
    true, with no start call by the enqueuer: if [playing] was false the
    call itself started the output stream, and if it was true the stream
    is running wherever a true [playing] meant a running stream before, as
    it does in every state reached from a new player by the calls the
    application makes. *)
Theorem add_data_starts_playback (data : list byte) (p p' : AudioPlayerAsync) :
  add_data data p = (Ok tt, p') ->
  playing p' = true /\
  (exists np_data, np_frombuffer_int16 data = Some np_data /\
                   queue p' = queue p ++ [np_data]) /\
  queue p' <> [] /\
  (playing p = false -> stream p' = StreamStart :: stream p) /\
  (playing_means_active p ->
     stream_active p' = true /\ playing_means_active p') /\
  (forall calls, p = after_calls calls -> stream_active p' = true).
Proof.
  intros Hret. destruct (add_data_inv _ _ _ Hret) as (np_data & Hbuf & Hp').
  assert (Hactive : playing_means_active p ->
            stream_active p' = true /\ playing_means_active p').
  { unfold playing_means_active, stream_active. intros Hinv.
    destruct (playing p) eqn:E; subst p'; simpl; auto. }
  assert (Hq : queue p' = queue p ++ [np_data])
    by (destruct (playing p); by subst p').
  split; [| split; [| split; [| split; [| split]]]].
  - destruct (playing p) eqn:E; by subst p'.
  - by exists np_data.
  - rewrite Hq. by destruct (queue p).
  - intros E. rewrite E in Hp'. by subst p'.
  - done.
  - intros calls ->.
    by destruct (Hactive (playing_means_active_after calls)).
Qed.

Lemma add_data_starts_playback_witness :
  add_data [x03; x00] AudioUtil.__init__
    = (Ok tt, mkPlayer [[3]] [StreamStart] true 0) /\
  playing (mkPlayer [[3]] [StreamStart] true 0) = true.
Proof.
  split; [reflexivity |].
  exact (proj1 (add_data_starts_playback [x03; x00] AudioUtil.__init__
                  (mkPlayer [[3]] [StreamStart] true 0) eq_refl)).
Defined.

End PlaybackProofs.

(* ===================================================================== *)
(** * Dialogue pipeline: proofs *)
(* ===================================================================== *)

Module PipelineProofs.
Import AudioUtil App Pipeline.

Local Open Scope string_scope.
Local Open Scope list_scope.

(** Unfolds the methods down to the monad, then the monad. *)
Ltac ds_unfold :=
  cbv [handle_realtime_event cancel_ongoing_response send the_realtime_conn
       sleep append_turn on_player stop reset_frame_count start];
  py_unfold.

(** ** The event handler never raises *)

Lemma handle_realtime_event_returns cd rm ev st :
  (handle_realtime_event cd rm ev st).1 = Ok tt.
Proof.
  unfold handle_realtime_event, try_except.
  match goal with |- context [match ?b st with _ => _ end] =>
    destruct (b st) as [[[] | e] s'] end; reflexivity.
Qed.

(** Events are handled one after the other, each in the state its
    predecessor left. *)
Lemma handle_events_cons cd rm ev rest st :
  handle_events cd ((rm, ev) :: rest) st
  = handle_events cd rest (handle_realtime_event cd rm ev st).2.
Proof.
  simpl. unfold bind at 1.
  pose proof (handle_realtime_event_returns cd rm ev st) as Hret.
  destruct (handle_realtime_event cd rm ev st) as [r st1].
  simpl in Hret. by subst r.
Qed.

Lemma handle_events_returns cd inbound : forall st,
  (handle_events cd inbound st).1 = Ok tt.
Proof.
  induction inbound as [| [rm ev] rest IH]; intros st; [done |].
  rewrite handle_events_cons. apply IH.
Qed.

(** ** Barge-in *)

(** C2.  In any state where the agent is responding, whatever is queued
    for playback, handling one speech-started event returns normally and
    leaves the playback queue empty, the frame counter at 0, playback
    stopped, the transcript accumulation and the caption cleared, no
    current audio item and the responding flag false; [rm] ranges over
    what the remote side does with the cancel command, which may succeed
    or raise, and no later event is needed. *)
Theorem barge_in_resets_locally (cd : codec) (rm : remote)
    (st : DialogueSystem) :
  is_npc_responding st = true ->
  let r := handle_realtime_event cd rm InputAudioBufferSpeechStarted st in
  r.1 = Ok tt /\
  queue (audio_player r.2) = [] /\
  _frame_count (audio_player r.2) = 0 /\
  playing (audio_player r.2) = false /\
  acc_items r.2 = ∅ /\
  npc_message r.2 = "" /\
  last_audio_item_id r.2 = None /\
  is_npc_responding r.2 = false.
Proof.
  intros Hresp r. subst r. split; [apply handle_realtime_event_returns |].
  destruct st as [msg hist resp npc c sm last acc pl sent act ini tr].
  simpl in Hresp. subst resp. ds_unfold. simpl.
  destruct c as [c |], sm; simpl;
    try destruct (send_raises rm ResponseCancel); simpl; done.
Qed.

Lemma barge_in_resets_locally_witness :
  is_npc_responding responding_state = true /\
  queue (audio_player
           (handle_realtime_event sample_codec broken_remote
              InputAudioBufferSpeechStarted responding_state).2) = [].
Proof.
  split; [reflexivity |].
  exact (proj1 (proj2 (barge_in_resets_locally sample_codec broken_remote
                         responding_state eq_refl))).
Defined.

(** ** Audio deltas *)

(** The frames an audio delta adds to the queue: the decoded payload, or
    nothing when decoding raises. *)
Lemma audio_delta_queue cd rm item_id delta st :
  queue (audio_player
           (handle_realtime_event cd rm (ResponseAudioDelta item_id delta) st).2)
  = queue (audio_player st) ++
    match b64decode cd delta with
    | Some b => match np_frombuffer_int16 b with
                | Some samples => [samples]
                | None => []
                end
    | None => []
    end.
Proof.
  destruct st as [msg hist resp npc c sm last acc pl sent act ini tr].
  ds_unfold. simpl.
  destruct (bool_decide (Some item_id = last)); simpl;
    destruct (b64decode cd delta) as [b |]; simpl;
    rewrite ?app_nil_r; try done;
    unfold add_data; destruct (np_frombuffer_int16 b); simpl;
    rewrite ?app_nil_r; try done;
    py_unfold; simpl; destruct (playing pl); simpl; done.
Qed.

(** C3, as the code has it.  When the item-id of an audio delta differs
    from the current playback item-id, the handler returns normally with
    the played-frame counter at 0 and the new item-id adopted; the queue
    is not cleared: the frames queued before stay in place and the frame
    decoded from the event is appended behind them (nothing is appended
    when decoding raises). *)
Theorem new_audio_item_resets_counter (cd : codec) (rm : remote)
    (item_id delta : string) (st : DialogueSystem) :
  last_audio_item_id st <> Some item_id ->
  let r := handle_realtime_event cd rm (ResponseAudioDelta item_id delta) st in
  r.1 = Ok tt /\
  last_audio_item_id r.2 = Some item_id /\
  _frame_count (audio_player r.2) = 0 /\
  queue (audio_player r.2)
  = queue (audio_player st) ++
    match b64decode cd delta with
    | Some b => match np_frombuffer_int16 b with
                | Some samples => [samples]
                | None => []
                end
    | None => []
    end.
Proof.
  intros Hnew r. subst r. split; [apply handle_realtime_event_returns |].
  split; [| split; [| apply audio_delta_queue]];
    destruct st as [msg hist resp npc c sm last acc pl sent act ini tr];
    simpl in Hnew; ds_unfold; simpl;
    (rewrite bool_decide_eq_false_2 by congruence); simpl;
    destruct (b64decode cd delta) as [b |]; simpl; try done;
    unfold add_data; destruct (np_frombuffer_int16 b); simpl; try done;
    py_unfold; simpl; destruct (playing pl); simpl; done.
Qed.

Lemma new_audio_item_resets_counter_witness :
  last_audio_item_id responding_state <> Some "r1" /\
  _frame_count (audio_player
    (handle_realtime_event sample_codec quiet_remote
       (ResponseAudioDelta "r1" "AwA=") responding_state).2) = 0.
Proof.
  assert (H : last_audio_item_id responding_state <> Some "r1")
    by (intros E; discriminate E).
  split; [exact H |].
  exact (proj1 (proj2 (proj2 (new_audio_item_resets_counter sample_codec
                  quiet_remote "r1" "AwA=" responding_state H)))).
Defined.

(** C3, as stated, fails: with the frames [[1; 2]] and [[7]] of item [r0]
    queued, an audio delta of item [r1] carrying the sample [3] leaves
    all three frames queued, not the new one alone. *)
Lemma stale_audio_stays_queued :
  let st' := (handle_realtime_event sample_codec quiet_remote
                (ResponseAudioDelta "r1" "AwA=") responding_state).2 in
  last_audio_item_id responding_state = Some "r0" /\
  queue (audio_player responding_state) = [[1; 2]; [7]] /\
  queue (audio_player st') = [[1; 2]; [7]; [3]] /\
  queue (audio_player st') <> [[3]].
Proof. vm_compute. repeat split; discriminate. Qed.

(** ** Remote errors *)

(** C4, as the code has it.  Handling a remote error event never raises.
    When the message is of the cancel-not-active class the whole state is
    left as it was.  For every other message the handler turns speech mode
    off, forgets the connection ([realtime_conn] becomes [None]) and marks
    the session as not initialised, and does nothing else: no call is made
    on the connection, so it is not closed. *)
Theorem remote_error_handling (cd : codec) (rm : remote) (error : string)
    (st : DialogueSystem) :
  let r := handle_realtime_event cd rm (Error error) st in
  r.1 = Ok tt /\
  (cancel_not_active error = true -> r.2 = st) /\
  (cancel_not_active error = false ->
     r.2 = set_realtime_initialized false
             (set_realtime_conn None (set_speech_mode false st)) /\
     speech_mode r.2 = false /\
     realtime_conn r.2 = None /\
     realtime_initialized r.2 = false /\
     trace r.2 = trace st).
Proof.
  intros r. subst r. split; [apply handle_realtime_event_returns |].
  unfold cancel_not_active. ds_unfold.
  destruct (contains "response_cancel_not_active" error); simpl.
  - split; [done | intros H; discriminate H].
  - split; [intros H; discriminate H | done].
Qed.

Lemma remote_error_handling_witness :
  cancel_not_active "Error code: response_cancel_not_active" = true /\
  cancel_not_active "server_error" = false /\
  (handle_realtime_event sample_codec quiet_remote
     (Error "Error code: response_cancel_not_active") responding_state).2
  = responding_state /\
  speech_mode (handle_realtime_event sample_codec quiet_remote
                 (Error "server_error") responding_state).2 = false.
Proof.
  split; [reflexivity |]. split; [reflexivity |]. split.
  - exact (proj1 (proj2 (remote_error_handling sample_codec quiet_remote
             "Error code: response_cancel_not_active" responding_state))
             eq_refl).
  - exact (proj1 (proj2 (proj2 (proj2 (remote_error_handling sample_codec
             quiet_remote "server_error" responding_state)) eq_refl))).
Defined.

(** C4, as stated, fails: after a fatal error on the open connection
    [Conn 0] the connection is still open in the trace, no close having
    been made on it, although the handler has forgotten it. *)
Lemma fatal_error_leaves_connection_open :
  let st' := (handle_realtime_event sample_codec quiet_remote
                (Error "server_error") responding_state).2 in
  cancel_not_active "server_error" = false /\
  realtime_conn responding_state = Some (Conn 0) /\
  is_open (Conn 0) (trace responding_state) = true /\
  realtime_conn st' = None /\
  is_open (Conn 0) (trace st') = true /\
  filter is_close (trace st') = [].
Proof. vm_compute. repeat split. Qed.

(** ** Transcript done *)

(** C10.  Handling a transcript-done event returns normally, sets the
    caption to the text accumulated for the item, the empty string when
    there is none, and appends exactly one assistant turn with that
    content at the end of the turn log, leaving the turns before it as
    they were. *)
Theorem transcript_done_appends_turn (cd : codec) (rm : remote)
    (item_id : string) (st : DialogueSystem) :
  let r := handle_realtime_event cd rm (ResponseAudioTranscriptDone item_id) st in
  let text := default "" (acc_items st !! item_id) in
  r.1 = Ok tt /\
  npc_message r.2 = text /\
  conversation_history r.2 = conversation_history st ++ [Turn Assistant text] /\
  length (conversation_history r.2) = S (length (conversation_history st)) /\
  (acc_items st !! item_id = None ->
     npc_message r.2 = "" /\
     conversation_history r.2
       = conversation_history st ++ [Turn Assistant ""]).
Proof.
  intros r text. subst r text.
  split; [apply handle_realtime_event_returns |].
  destruct st as [msg hist resp npc c sm last acc pl sent act ini tr].
  ds_unfold. simpl. split; [done |]. split; [done |]. split.
  - rewrite length_app. simpl. lia.
  - by intros ->.
Qed.

Lemma transcript_done_appends_turn_witness :
  acc_items text_state !! "r9" = None /\
  conversation_history
    (handle_realtime_event sample_codec quiet_remote
       (ResponseAudioTranscriptDone "r9") text_state).2
  = conversation_history text_state ++ [Turn Assistant ""].
Proof.
  split; [reflexivity |].
  exact (proj2 (proj2 (proj2 (proj2 (proj2
           (transcript_done_appends_turn sample_codec quiet_remote "r9"
              text_state)))) eq_refl)).
Defined.

(** ** Transcript accumulation *)

(** What a transcript-done event does to the state. *)
Lemma transcript_done_step cd rm item_id st :
  let r := handle_realtime_event cd rm (ResponseAudioTranscriptDone item_id) st in
  r.1 = Ok tt /\
  npc_message r.2 = default "" (acc_items st !! item_id) /\
  conversation_history r.2
    = conversation_history st
      ++ [Turn Assistant (default "" (acc_items st !! item_id))] /\
  acc_items r.2 = acc_items st.
Proof. destruct st. simpl. done. Qed.

Lemma string_append_assoc (a b c : string) :
  ((a ++ b) ++ c)%string = (a ++ (b ++ c))%string.
Proof.
  induction a as [| ch a IH]; [done |].
  change (String ch ((a ++ b) ++ c)%string = String ch (a ++ (b ++ c))%string).
  by rewrite IH.
Qed.

Lemma string_append_empty_r (a : string) : (a ++ "")%string = a.
Proof.
  induction a as [| ch a IH]; [done |].
  change (String ch (a ++ "")%string = String ch a). by rewrite IH.
Qed.

(** A transcript delta touches the accumulator only. *)
Lemma transcript_delta_step cd rm item_id delta st :
  (handle_realtime_event cd rm (ResponseAudioTranscriptDelta item_id delta) st).2
  = set_acc_items
      (<[item_id := (default "" (acc_items st !! item_id) ++ delta)%string]>
         (acc_items st)) st.
Proof. destruct st. reflexivity. Qed.

(** After the deltas of an item, its buffer holds what it held before
    followed by the deltas in arrival order, and the caption and the turn
    log are as before. *)
Lemma transcript_deltas_accumulate cd item_id deltas : forall st,
  let st' := (handle_events cd (transcript_deltas item_id deltas) st).2 in
  default "" (acc_items st' !! item_id)
    = (default "" (acc_items st !! item_id) ++ joined deltas)%string /\
  conversation_history st' = conversation_history st /\
  (deltas <> [] -> is_Some (acc_items st' !! item_id)).
Proof.
  induction deltas as [| [rm d] deltas IH]; intros st.
  - simpl. rewrite string_append_empty_r. done.
  - cbn [transcript_deltas map fst snd]. rewrite handle_events_cons.
    rewrite transcript_delta_step. fold (transcript_deltas item_id deltas).
    set (st1 := set_acc_items _ st).
    destruct (IH st1) as (Hacc & Hhist & Hsome).
    assert (Hst1 : default "" (acc_items st1 !! item_id)
                   = (default "" (acc_items st !! item_id) ++ d)%string).
    { unfold st1. destruct st; simpl. by rewrite lookup_insert_eq. }
    split; [| split].
    + rewrite Hacc, Hst1. apply string_append_assoc.
    + rewrite Hhist. unfold st1. by destruct st.
    + intros _. destruct deltas as [| d' deltas'].
      * simpl. unfold st1. destruct st; simpl.
        rewrite lookup_insert_eq. by eexists.
      * by apply Hsome.
Qed.

(** C7, as the code has it.  After the transcript deltas of an item-id,
    a transcript-done event for it returns normally and yields (as the
    caption, and as the content of the assistant turn it appends) the
    text held for the item before, followed by the deltas in arrival
    order: the concatenation of the deltas when nothing was held, the
    empty string when there is no delta either.  The item's buffer is not
    cleared: the accumulator is left as it was, and a second
    transcript-done event for the same item-id yields the same text
    again. *)
Theorem transcript_finalize_keeps_buffer (cd : codec) (rm rm' : remote)
    (item_id : string) (deltas : list (remote * string))
    (st : DialogueSystem) :
  let st1 := (handle_events cd (transcript_deltas item_id deltas) st).2 in
  let r2 := handle_realtime_event cd rm (ResponseAudioTranscriptDone item_id) st1 in
  let r3 := handle_realtime_event cd rm' (ResponseAudioTranscriptDone item_id) r2.2 in
  let text := (default "" (acc_items st !! item_id) ++ joined deltas)%string in
  r2.1 = Ok tt /\
  npc_message r2.2 = text /\
  conversation_history r2.2
    = conversation_history st ++ [Turn Assistant text] /\
  (acc_items st !! item_id = None -> npc_message r2.2 = joined deltas) /\
  (acc_items st !! item_id = None -> deltas = [] -> npc_message r2.2 = "") /\
  acc_items r2.2 = acc_items st1 /\
  r3.1 = Ok tt /\
  npc_message r3.2 = text.
Proof.
  intros st1 r2 r3 text.
  destruct (transcript_deltas_accumulate cd item_id deltas st)
    as (Hacc & Hhist & _). fold st1 in Hacc, Hhist.
  destruct (transcript_done_step cd rm item_id st1) as (H2 & Hmsg2 & Hh2 & Ha2).
  fold r2 in H2, Hmsg2, Hh2, Ha2.
  destruct (transcript_done_step cd rm' item_id r2.2) as (H3 & Hmsg3 & _).
  fold r3 in H3, Hmsg3.
  assert (Htext : npc_message r2.2 = text)
    by (rewrite Hmsg2, Hacc; done).
  split; [done |]. split; [done |]. split.
  { rewrite Hh2, Hhist, Hacc. done. }
  split.
  { intros Hnone. rewrite Htext. unfold text. by rewrite Hnone. }
  split.
  { intros Hnone ->. rewrite Htext. unfold text. by rewrite Hnone. }
  split; [done |]. split; [done |].
  rewrite Hmsg3, Ha2, Hacc. done.
Qed.

Lemma transcript_finalize_keeps_buffer_witness :
  acc_items text_state !! "r1" = None /\
  npc_message
    (handle_realtime_event sample_codec quiet_remote
       (ResponseAudioTranscriptDone "r1")
       (handle_events sample_codec
          (transcript_deltas "r1"
             [(quiet_remote, "a"); (quiet_remote, "b"); (quiet_remote, "c")])
          text_state).2).2
  = joined [(quiet_remote, "a"); (quiet_remote, "b"); (quiet_remote, "c")].
Proof.
  split; [reflexivity |].
  exact (proj1 (proj2 (proj2 (proj2
           (transcript_finalize_keeps_buffer sample_codec quiet_remote
              quiet_remote "r1"
              [(quiet_remote, "a"); (quiet_remote, "b"); (quiet_remote, "c")]
              text_state)))) eq_refl).
Defined.

Example transcript_abc :
  npc_message
    (handle_events sample_codec
       (transcript_deltas "r1"
          [(quiet_remote, "a"); (quiet_remote, "b"); (quiet_remote, "c")]
        ++ [(quiet_remote, ResponseAudioTranscriptDone "r1")])
       text_state).2 = "abc".
Proof. vm_compute. reflexivity. Qed.

(** C7, as stated, fails: after the deltas [a], [b], [c] of item [r1] and
    its transcript-done event the buffer of [r1] still holds [abc], and a
    second transcript-done event for [r1] yields [abc], not the empty
    string. *)
Lemma second_finalize_yields_text_again :
  let st1 := (handle_events sample_codec
                (transcript_deltas "r1"
                   [(quiet_remote, "a"); (quiet_remote, "b");
                    (quiet_remote, "c")])
                text_state).2 in
  let st2 := (handle_realtime_event sample_codec quiet_remote
                (ResponseAudioTranscriptDone "r1") st1).2 in
  let st3 := (handle_realtime_event sample_codec quiet_remote
                (ResponseAudioTranscriptDone "r1") st2).2 in
  npc_message st2 = "abc" /\
  acc_items st2 !! "r1" = Some "abc" /\
  npc_message st3 = "abc" /\
  npc_message st3 <> "".
Proof. vm_compute. repeat split; discriminate. Qed.

(** ** What the handlers add to the trace *)

(** Splits on the tests the methods branch on, innermost first. *)
Ltac case_tests :=
  repeat (simpl;
    match goal with
    | |- context [if ?b then _ else _] => is_var b; destruct b
    | |- context [match ?x with _ => _ end] => is_var x; destruct x
    | |- context [andb ?b _] => is_var b; destruct b
    | |- context [orb ?b _] => is_var b; destruct b
    | |- context [negb ?b] => is_var b; destruct b
    | |- context [bool_decide ?P] => destruct (bool_decide P) eqn:?
    | |- context [contains ?a ?b] => destruct (contains a b) eqn:?
    | |- context [b64decode ?cd ?d] => destruct (b64decode cd d) eqn:?
    | |- context [np_frombuffer_int16 ?b] =>
        destruct (np_frombuffer_int16 b) eqn:?
    | |- context [send_raises ?rm ?c] => destruct (send_raises rm c) eqn:?
    | |- context [chat_completions ?rm ?h] =>
        destruct (chat_completions rm h) eqn:?
    | |- context [playing ?p] => destruct (playing p) eqn:?
    end);
  simpl.

(** Closes [exists new, tr' = tr ++ new /\ ...] when [tr'] is [tr] with
    effects appended one at a time. *)
Ltac trace_extension :=
  rewrite <- ?app_assoc; simpl;
  eexists; split;
  [first [reflexivity | symmetry; apply app_nil_r] | try done].

(** A handler only adds commands other than append-audio to the trace; it
    never turns speech mode on. *)
Lemma handle_realtime_event_frame cd rm ev st :
  let st' := (handle_realtime_event cd rm ev st).2 in
  (exists new, trace st' = trace st ++ new /\
               forallb handler_effect new = true) /\
  (speech_mode st = false -> speech_mode st' = false).
Proof.
  destruct st as [msg hist resp npc c sm last acc pl sent act ini tr].
  destruct ev; ds_unfold; unfold add_data; case_tests; py_unfold; simpl;
    case_tests; (split; [trace_extension | try done]).
Qed.


(** ** The fallback path *)

(** Refutes [H : tr ++ l1 = tr ++ l2] for different [l1] and [l2]. *)
Ltac trace_absurd H :=
  rewrite <- ?app_assoc in H; simpl in H;
  first [ apply app_inv_head in H; discriminate H
        | apply (f_equal length) in H; rewrite ?length_app in H;
          simpl in H; lia ].

(** The fallback request is made exactly when the turn log is not empty
    and the realtime connection is not in use. *)
Lemma fallback_request_made rm text_input st :
  trace (send_message rm text_input st).2
    = trace st ++ [ChatCompletionsCreate (conversation_history st)] ->
  conversation_history st <> [] /\ streaming st = false.
Proof.
  destruct st as [msg hist resp npc c sm last acc pl sent act ini tr].
  unfold send_message, streaming. ds_unfold. simpl.
  destruct (bool_decide (hist = [])) eqn:Hh; simpl.
  { intros H. trace_absurd H. }
  apply bool_decide_eq_false in Hh.
  destruct (sm && bool_decide (is_Some c) && ini) eqn:Hs; simpl; [| done].
  intros H. exfalso. revert H. case_tests; intros H; trace_absurd H.
Qed.

Lemma send_message_fallback_raises rm text_input st e :
  conversation_history st <> [] ->
  streaming st = false ->
  chat_completions rm (conversation_history st) = Raise e ->
  send_message rm text_input st
  = (Ok tt,
     set_is_npc_responding false
       (set_npc_message apology
          (log (ChatCompletionsCreate (conversation_history st)) st))).
Proof.
  destruct st as [msg hist resp npc c sm last acc pl sent act ini tr].
  unfold send_message, streaming. simpl. intros Hh Hs Hchat.
  ds_unfold. simpl.
  rewrite bool_decide_eq_false_2 by done. simpl.
  destruct sm; simpl; [| by rewrite Hchat].
  destruct c as [c |]; simpl; [| by rewrite Hchat].
  destruct ini; simpl; [| by rewrite Hchat].
  rewrite bool_decide_eq_true_2 in Hs by eauto. discriminate Hs.
Qed.

(** C6.  Whatever the state and the text typed, when [send_message] makes
    the non-streaming fallback request and that request raises, the call
    returns normally with the caption set to the fixed apology, the turn
    log exactly as it was before the call and the responding flag false. *)
Theorem fallback_failure_apologises (rm : remote) (text_input : string)
    (st : DialogueSystem) (e : exn) :
  let r := send_message rm text_input st in
  trace r.2 = trace st ++ [ChatCompletionsCreate (conversation_history st)] ->
  chat_completions rm (conversation_history st) = Raise e ->
  r.1 = Ok tt /\
  npc_message r.2 = apology /\
  conversation_history r.2 = conversation_history st /\
  is_npc_responding r.2 = false.
Proof.
  intros r Hmade Hraise. subst r.
  destruct (fallback_request_made _ _ _ Hmade) as [Hh Hs].
  rewrite (send_message_fallback_raises _ _ _ _ Hh Hs Hraise).
  by destruct st.
Qed.

Lemma fallback_failure_apologises_witness :
  trace (send_message broken_remote "hi" text_state).2
    = trace text_state
      ++ [ChatCompletionsCreate (conversation_history text_state)] /\
  npc_message (send_message broken_remote "hi" text_state).2 = apology /\
  conversation_history (send_message broken_remote "hi" text_state).2
    = conversation_history text_state.
Proof.
  split; [reflexivity |].
  pose proof (fallback_failure_apologises broken_remote "hi" text_state
                (Exn "APIConnectionError" "Connection error.")
                eq_refl eq_refl) as H.
  exact (conj (proj1 (proj2 H)) (proj1 (proj2 (proj2 H)))).
Defined.

(** ** The capture loop *)


Lemma streaming_flags st :
  streaming st = true ->
  speech_mode st = true /\ is_Some (realtime_conn st) /\
  realtime_initialized st = true.
Proof.
  unfold streaming. intros H.
  apply andb_prop in H as [H Hini]. apply andb_prop in H as [Hsm Hc].
  apply bool_decide_eq_true in Hc. done.
Qed.











(** With speech mode on, the same pass does send the frame. *)
Example capture_forwards_when_streaming :
  appends (mic_iteration sample_codec quiet_remote full_tick
             (set_speech_mode true muted_state)).2
  = [Send (Conn 0) (InputAudioBufferAppend "AQACAA==")].
Proof. vm_compute. reflexivity. Qed.

(** ** Connecting *)

Lemma attempts_made_app (a b : list effect) :
  attempts_made (a ++ b) = (attempts_made a + attempts_made b)%nat.
Proof. unfold attempts_made. by rewrite filter_app, length_app. Qed.

Lemma sleeps_app (a b : list effect) : sleeps (a ++ b) = sleeps a ++ sleeps b.
Proof. unfold sleeps. apply omap_app. Qed.

Lemma handler_effects_quiet (new : list effect) :
  forallb handler_effect new = true ->
  attempts_made new = 0%nat /\ sleeps new = [].
Proof.
  induction new as [| e new IH]; [done |]. simpl. intros H.
  apply andb_prop in H as [He Hnew]. destruct (IH Hnew) as [Ha Hs].
  unfold attempts_made in *. unfold sleeps in *.
  destruct e; simpl in *; done.
Qed.

Lemma handle_events_frame cd inbound : forall st,
  exists new, trace (handle_events cd inbound st).2 = trace st ++ new /\
              forallb handler_effect new = true.
Proof.
  induction inbound as [| [rm ev] rest IH]; intros st.
  - exists []. by rewrite app_nil_r.
  - rewrite handle_events_cons.
    destruct (handle_realtime_event_frame cd rm ev st)
      as [(new1 & Htr1 & Hnew1) _].
    destruct (IH (handle_realtime_event cd rm ev st).2)
      as (new2 & Htr2 & Hnew2).
    exists (new1 ++ new2). rewrite Htr2, Htr1, <- app_assoc.
    split; [done |]. rewrite forallb_app. by rewrite Hnew1, Hnew2.
Qed.

(** One attempt makes one connect and no sleep, and raises exactly when
    the attempt fails. *)
Lemma attempt_body_spec cd oc st :
  exists new,
    trace (attempt_body cd oc st).2 = trace st ++ new /\
    attempts_made new = 1%nat /\ sleeps new = [] /\
    if fails oc then exists e, (attempt_body cd oc st).1 = Raise e
    else (attempt_body cd oc st).1 = Ok tt.
Proof.
  unfold attempt_body. py_unfold.
  destruct oc as [e | update inbound stream_end]; simpl.
  - exists [Connect (fresh_conn st)]. destruct st; simpl. eauto.
  - destruct update as [e |]; simpl.
    + exists [Connect (fresh_conn st);
              Send (fresh_conn st) (session_update st);
              Close (fresh_conn st)].
      split; [| split; [| split]]; [| done | done | by eexists].
      destruct st; simpl. rewrite <- !app_assoc. reflexivity.
    + match goal with |- context [handle_events cd inbound ?s] =>
        pose proof (handle_events_returns cd inbound s) as Hret;
        destruct (handle_events_frame cd inbound s) as (new & Htr & Hnew);
        destruct (handle_events cd inbound s) as [r s']
      end.
      simpl in Hret, Htr. subst r.
      destruct (handler_effects_quiet new Hnew) as [Ha Hs].
      exists ([Connect (fresh_conn st);
               Send (fresh_conn st) (session_update st)]
              ++ new ++ [Close (fresh_conn st)]).
      split; [| split; [| split]].
      * destruct stream_end; destruct s', st; simpl in *;
          rewrite Htr, <- !app_assoc; reflexivity.
      * rewrite !attempts_made_app, Ha. reflexivity.
      * rewrite !sleeps_app, Hs. reflexivity.
      * destruct stream_end; simpl; eauto.
Qed.

(** The attempts [attempt], ..., [attempt + todo - 1]: at most [todo]
    connects, only 2-second sleeps, never an exception; and when they are
    the last attempts and all fail, exactly [todo] connects with a sleep
    between them, and speech mode is off at the end. *)
Lemma attempts_from_spec cd outcomes : forall todo attempt st,
  let r := attempts_from cd outcomes attempt todo st in
  r.1 = Ok tt /\
  exists new,
    trace r.2 = trace st ++ new /\
    (attempts_made new <= todo)%nat /\
    (exists k, (k <= attempts_made new)%nat /\
               sleeps new = replicate k 2000) /\
    ((0 < todo)%nat ->
     attempt + Z.of_nat todo = max_attempts ->
     (forall i, attempt <= i < max_attempts -> fails (outcomes i) = true) ->
     attempts_made new = todo /\
     sleeps new = replicate (todo - 1) 2000 /\
     speech_mode r.2 = false /\
     realtime_conn r.2 = None /\
     realtime_initialized r.2 = false).
Proof.
  induction todo as [| todo IH]; intros attempt st.
  { simpl. split; [done |]. exists []. rewrite app_nil_r.
    split; [done |]. split; [done |]. split; [by exists 0%nat | lia]. }
  cbn [attempts_from]. py_unfold.
  destruct (attempt_body_spec cd (outcomes attempt) st)
    as (new1 & Htr1 & Ha1 & Hs1 & Hres).
  destruct (attempt_body cd (outcomes attempt) st) as [r1 s1].
  simpl in Htr1, Hres.
  destruct (fails (outcomes attempt)) eqn:Hfail.
  - destruct Hres as [e ->].
    destruct (decide (attempt < max_attempts - 1)) as [Hmore | Hlast].
    + rewrite bool_decide_eq_true_2 by done. unfold sleep; py_unfold.
      set (s2 := log (Sleep 2000)
                   (set_realtime_initialized false
                      (set_realtime_conn None s1))).
      destruct (IH (attempt + 1) s2) as (Hok & new2 & Htr2 & Ha2 & Hk & Hall).
      split; [done |].
      exists (new1 ++ [Sleep 2000] ++ new2).
      assert (Htr : trace s2 = trace st ++ new1 ++ [Sleep 2000]).
      { unfold s2. destruct s1; simpl in *. by rewrite Htr1, <- app_assoc. }
      split; [by rewrite Htr2, Htr, <- !app_assoc |].
      rewrite !attempts_made_app, !sleeps_app, Ha1, Hs1.
      change (attempts_made [Sleep 2000]) with 0%nat.
      change (sleeps [Sleep 2000]) with [2000]. simpl.
      split; [lia |]. split.
      * destruct Hk as (k & Hk & ->). exists (S k). split; [lia | done].
      * intros _ Hsum Hfails.
        destruct Hall as (Hn & Hsl & Hrest);
          [unfold max_attempts in *; lia | lia
          | intros i Hi; apply Hfails; lia |].
        rewrite Hn, Hsl. split; [done |]. split; [| done].
        destruct todo as [| todo']; [unfold max_attempts in *; lia |].
        simpl. by rewrite Nat.sub_0_r.
    + rewrite bool_decide_eq_false_2 by done. py_unfold.
      split; [done |]. exists new1.
      split; [by destruct s1 |]. rewrite Ha1, Hs1.
      split; [lia |]. split; [exists 0%nat; split; [lia | done] |].
      intros _ Hsum _.
      assert (todo = 0%nat) by (unfold max_attempts in *; lia). subst todo.
      by destruct s1.
  - rewrite Hres.
    destruct (IH (attempt + 1) s1) as (Hok & new2 & Htr2 & Ha2 & Hk & _).
    split; [done |]. exists (new1 ++ new2).
    split; [by rewrite Htr2, Htr1, <- app_assoc |].
    rewrite !attempts_made_app, !sleeps_app, Ha1, Hs1. simpl.
    split; [lia |]. split.
    + destruct Hk as (k & Hk & ->). exists k. split; [lia | done].
    + intros _ Hsum Hfails. rewrite Hfails in Hfail; [done |].
      unfold max_attempts in *. lia.
Qed.

Lemma replicate_sorted (k : nat) (x : Z) :
  StronglySorted Z.le (replicate k x).
Proof.
  induction k as [| k IH]; simpl; constructor; [done |].
  apply Forall_forall. intros y Hy.
  apply elem_of_replicate in Hy as [-> _]. lia.
Qed.

(** C5.  Whatever the connection attempts meet, [initialize_realtime]
    returns normally after at most 3 attempts, and the delays it sleeps
    between attempts (2 seconds each) are non-decreasing.  When all 3
    attempts fail it has made exactly 3 attempts with a 2-second delay
    after the first and after the second, and it ends with speech mode
    off, no connection and the session not initialised. *)
Theorem connect_gives_up_after_three (cd : codec)
    (outcomes : Z -> attempt_outcome) (st : DialogueSystem) :
  let r := initialize_realtime cd outcomes st in
  r.1 = Ok tt /\
  exists new,
    trace r.2 = trace st ++ new /\
    (attempts_made new <= 3)%nat /\
    StronglySorted Z.le (sleeps new) /\
    ((forall i, 0 <= i < 3 -> fails (outcomes i) = true) ->
     attempts_made new = 3%nat /\
     sleeps new = [2000; 2000] /\
     speech_mode r.2 = false /\
     realtime_conn r.2 = None /\
     realtime_initialized r.2 = false).
Proof.
  unfold initialize_realtime. py_unfold.
  destruct (attempts_from_spec cd outcomes (Z.to_nat max_attempts) 0
              (set_realtime_initialized false st))
    as (Hok & new & Htr & Hle & (k & _ & Hk) & Hall).
  split; [done |]. exists new.
  split; [rewrite Htr; by destruct st |].
  split; [done |]. split; [rewrite Hk; apply replicate_sorted |].
  intros Hfails. apply Hall; [unfold max_attempts; lia | done | done].
Qed.

Lemma connect_gives_up_after_three_witness :
  (forall i, 0 <= i < 3 -> fails (unreachable_remote i) = true) /\
  speech_mode
    (initialize_realtime sample_codec unreachable_remote
       (set_speech_mode true text_state)).2 = false.
Proof.
  assert (H : forall i, 0 <= i < 3 -> fails (unreachable_remote i) = true)
    by (intros i _; reflexivity).
  split; [exact H |].
  destruct (proj2 (connect_gives_up_after_three sample_codec
                     unreachable_remote (set_speech_mode true text_state)))
    as (new & _ & _ & _ & Hall).
  exact (proj1 (proj2 (proj2 (Hall H)))).
Defined.

Example three_refused_attempts :
  trace (initialize_realtime sample_codec unreachable_remote
           (set_speech_mode true text_state)).2
  = [Connect (Conn 0); Sleep 2000; Connect (Conn 1); Sleep 2000;
     Connect (Conn 2)].
Proof. vm_compute. reflexivity. Qed.

(** ** Scenarios *)

(** Two audio deltas and the transcript of item [r1], then response-done:
    one new assistant turn, and the two decoded frames queued in order. *)
Example scenario_one_response :
  let st := (handle_events sample_codec
               [(quiet_remote, ResponseAudioDelta "r1" "AQACAA==");
                (quiet_remote, ResponseAudioDelta "r1" "AwA=");
                (quiet_remote, ResponseAudioTranscriptDelta "r1" "Hello there");
                (quiet_remote, ResponseAudioTranscriptDone "r1");
                (quiet_remote, ResponseDone)]
               text_state).2 in
  conversation_history st
    = conversation_history text_state ++ [Turn Assistant "Hello there"] /\
  queue (audio_player st) = [[1; 2]; [3]] /\
  playing (audio_player st) = true /\
  is_npc_responding st = false.
Proof. vm_compute. repeat split. Qed.

(** Barge-in while the agent responds: the cancel command goes out, the
    queue is emptied, and the remote error that answers a cancel with
    nothing to cancel changes nothing. *)
Example scenario_barge_in :
  let st := (handle_realtime_event sample_codec broken_remote
               InputAudioBufferSpeechStarted responding_state).2 in
  let st' := (handle_realtime_event sample_codec quiet_remote
                (Error "Error code: response_cancel_not_active") st).2 in
  trace st = trace responding_state ++ [Send (Conn 0) ResponseCancel] /\
  queue (audio_player st) = [] /\
  is_npc_responding st = false /\
  st' = st.
Proof. vm_compute. repeat split. Qed.

End PipelineProofs.

(* ===================================================================== *)
(** * Playback buffer: further properties *)
(* ===================================================================== *)

Module PlaybackCoverage.
Import AudioUtil App Playback Coverage.

(** ** PCM bytes and samples *)

Lemma byte_val_of_Z (z : Z) : byte_val (byte_of_Z z) = z mod 256.
Proof.
  unfold byte_val, byte_of_Z.
  assert (Hb : 0 <= z mod 256 < 256) by (apply Z.mod_pos_bound; lia).
  destruct (Byte.of_N (Z.to_N (z mod 256))) as [b |] eqn:E.
  - simpl. apply Byte.to_of_N in E. rewrite E. lia.
  - apply Byte.of_N_None_iff in E. lia.
Qed.

Lemma byte_val_bounded (b : byte) : 0 <= byte_val b <= 255.
Proof. unfold byte_val. pose proof (Byte.to_N_bounded b). lia. Qed.

Lemma byte_of_Z_val (b : byte) : byte_of_Z (byte_val b) = b.
Proof.
  unfold byte_of_Z. pose proof (byte_val_bounded b) as Hb.
  rewrite Z.mod_small by lia. unfold byte_val.
  rewrite N2Z.id, Byte.of_to_N. done.
Qed.

Lemma int16_of_bytes_range (lo hi : byte) : is_int16 (int16_of_bytes lo hi).
Proof.
  unfold is_int16, int16_of_bytes.
  pose proof (byte_val_bounded lo). pose proof (byte_val_bounded hi).
  destruct (Z.ltb_spec (byte_val lo + 256 * byte_val hi) 32768); lia.
Qed.

Lemma int16_round_trip (z : Z) :
  is_int16 z ->
  int16_of_bytes (byte_of_Z z) (byte_of_Z (z mod 65536 / 256)) = z.
Proof.
  unfold is_int16, int16_of_bytes. intros Hz. rewrite !byte_val_of_Z.
  destruct (Z.ltb_spec (z mod 256 + 256 * ((z mod 65536 / 256) mod 256)) 32768);
    Z.div_mod_to_equations; lia.
Qed.

(** X1.  The bytes the capture loop makes of a block of [int16] samples
    ([data.tobytes()]) decode, in the player ([np.frombuffer]), to the same
    samples. *)
Theorem pcm16_round_trip (data : list Z) :
  Forall is_int16 data ->
  np_frombuffer_int16 (tobytes data) = Some data.
Proof.
  induction data as [| z data IH]; intros Hall; [done |].
  apply Forall_cons in Hall as [Hz Hall].
  unfold tobytes in *. cbn [map concat app np_frombuffer_int16].
  rewrite (IH Hall), int16_round_trip by done. done.
Qed.

Lemma pcm16_round_trip_witness :
  Forall is_int16 [1; -2; 32767; -32768] /\
  np_frombuffer_int16 (tobytes [1; -2; 32767; -32768])
    = Some [1; -2; 32767; -32768].
Proof.
  assert (H : Forall is_int16 [1; -2; 32767; -32768])
    by (repeat constructor; unfold is_int16; lia).
  split; [exact H | exact (pcm16_round_trip _ H)].
Defined.

Lemma byte_of_Z_eq (z : Z) (b : byte) :
  z mod 256 = byte_val b -> byte_of_Z z = b.
Proof.
  intros H. unfold byte_of_Z. rewrite H. unfold byte_val.
  by rewrite N2Z.id, Byte.of_to_N.
Qed.

(** The two bytes of a decoded sample are the bytes it was decoded from. *)
Lemma int16_bytes_back (lo hi : byte) :
  byte_of_Z (int16_of_bytes lo hi) = lo /\
  byte_of_Z (int16_of_bytes lo hi mod 65536 / 256) = hi.
Proof.
  pose proof (byte_val_bounded lo). pose proof (byte_val_bounded hi).
  split; apply byte_of_Z_eq; unfold int16_of_bytes;
    destruct (Z.ltb_spec (byte_val lo + 256 * byte_val hi) 32768);
    Z.div_mod_to_equations; lia.
Qed.

(** Induction on a byte string two bytes at a time. *)
Lemma byte_pairs_ind (P : list byte -> Prop) :
  P [] -> (forall b, P [b]) ->
  (forall lo hi rest, P rest -> P (lo :: hi :: rest)) ->
  forall data, P data.
Proof.
  intros H0 H1 H2.
  assert (H : forall data, P data /\ forall b, P (b :: data)).
  { induction data as [| b data [IH IH']]; [by split |].
    split; [apply IH' |]. intros b'. by apply H2. }
  intros data. apply H.
Qed.

(** X2.  [add_data] accepts a chunk exactly when its size is even: an odd
    chunk raises [ValueError] and leaves the player as it was, and an even
    chunk of [2 n] bytes puts [n] samples, each an [int16] value, at the
    back of the queue. *)
Theorem add_data_needs_even_size (data : list byte) (p : AudioPlayerAsync) :
  (Nat.even (length data) = false ->
   add_data data p
   = (Raise (ValueError "buffer size must be a multiple of element size"), p))
  /\
  (Nat.even (length data) = true ->
   exists samples p',
     add_data data p = (Ok tt, p') /\
     queue p' = queue p ++ [samples] /\
     length data = (2 * length samples)%nat /\
     Forall is_int16 samples /\
     tobytes samples = data).
Proof.
  assert (Hbuf :
    (Nat.even (length data) = false -> np_frombuffer_int16 data = None) /\
    (Nat.even (length data) = true ->
     exists samples, np_frombuffer_int16 data = Some samples /\
       length data = (2 * length samples)%nat /\
       Forall is_int16 samples /\ tobytes samples = data)).
  { induction data as [| b | lo hi rest [IHodd IHeven]] using byte_pairs_ind.
    - split; [done |]. intros _. by exists [].
    - split; [done | done].
    - change (Nat.even (length (lo :: hi :: rest)))
        with (Nat.even (length rest)).
      split.
      + intros Hodd. simpl. by rewrite (IHodd Hodd).
      + intros Heven.
        destruct (IHeven Heven) as (samples & Hs & Hlen & Hrange & Hback).
        exists (int16_of_bytes lo hi :: samples). simpl. rewrite Hs.
        split; [done |]. split; [lia |].
        split; [constructor; [apply int16_of_bytes_range | done] |].
        unfold tobytes in *. cbn [map concat app]. rewrite Hback.
        destruct (int16_bytes_back lo hi) as [-> ->]. done. }
  destruct Hbuf as [Hodd Heven]. split.
  - intros H. unfold add_data. by rewrite (Hodd H).
  - intros H. destruct (Heven H) as (samples & Hs & Hlen & Hrange & Hback).
    exists samples. unfold add_data. rewrite Hs. unfold start. py_unfold.
    destruct (playing p) eqn:E; simpl; rewrite E; simpl; eauto 10.
Qed.

Lemma add_data_needs_even_size_witness :
  Nat.even (length [x03]) = false /\
  Nat.even (length [x03; x00]) = true /\
  add_data [x03] sample_player
  = (Raise (ValueError "buffer size must be a multiple of element size"),
     sample_player) /\
  exists samples p', add_data [x03; x00] sample_player = (Ok tt, p') /\
                     queue p' = queue sample_player ++ [samples].
Proof.
  split; [reflexivity |]. split; [reflexivity |]. split.
  - exact (proj1 (add_data_needs_even_size [x03] sample_player) eq_refl).
  - destruct (proj2 (add_data_needs_even_size [x03; x00] sample_player)
                eq_refl) as (samples & p' & Hrun & Hq & _).
    exists samples, p'. by split.
Defined.

(** ** Enqueue order *)

Lemma add_all_spec (chunks : list (list byte)) : forall arrays p,
  decode_all chunks = Some arrays ->
  exists p',
    add_all chunks p = (Ok tt, p') /\
    queue p' = queue p ++ arrays /\
    _frame_count p' = _frame_count p /\
    (chunks <> [] -> playing p' = true).
Proof.
  induction chunks as [| data chunks IH]; intros arrays p Hdec.
  - injection Hdec as <-. exists p. rewrite app_nil_r. done.
  - simpl in Hdec.
    destruct (np_frombuffer_int16 data) as [samples |] eqn:Hs; [| done].
    destruct (decode_all chunks) as [more |] eqn:Hm; [| done].
    injection Hdec as <-.
    cbn [add_all]. unfold bind at 1.
    destruct (add_data data p) as [r p1] eqn:Hadd.
    assert (Hp1 : r = Ok tt /\ queue p1 = queue p ++ [samples] /\
                  _frame_count p1 = _frame_count p /\ playing p1 = true).
    { revert Hadd. unfold add_data. rewrite Hs. unfold start. py_unfold.
      destruct (playing p) eqn:E; simpl; rewrite E; simpl;
        intros [= <- <-]; done. }
    destruct Hp1 as (-> & Hq1 & Hc1 & Hpl1).
    destruct (IH more p1 eq_refl) as (p' & Hrun & Hq & Hc & Hpl).
    exists p'. rewrite Hrun, Hq, Hq1, Hc, Hc1, <- app_assoc.
    repeat split; try done. intros _.
    destruct chunks as [| c chunks']; [| apply Hpl; done].
    simpl in Hrun. injection Hrun as <-. done.
Qed.

(** X3.  Chunks enqueued one after the other with [add_data] are played
    in the order they were enqueued, after what was queued before: a run
    of callbacks writes the samples queued before followed by the samples
    of the chunks in order, as many as are requested, and then zeros. *)
Theorem enqueued_chunks_play_in_order (chunks : list (list byte))
    (arrays : list (list Z)) (p : AudioPlayerAsync) (blocks : list Z) :
  decode_all chunks = Some arrays ->
  let all := queued p ++ concat arrays in
  let M := (length all `min` requested blocks)%nat in
  exists p' p'',
    add_all chunks p = (Ok tt, p') /\
    run_callbacks blocks p'
    = Some (take M all ++ replicate (requested blocks - M) 0, p'') /\
    queued p'' = drop M all.
Proof.
  intros Hdec all M.
  destruct (add_all_spec chunks arrays p Hdec) as (p' & Hadd & Hq & _).
  destruct (PlaybackProofs.run_callbacks_spec blocks p') as (p'' & Hrun & Hleft).
  assert (Hall : queued p' = all).
  { unfold queued, all. rewrite Hq, concat_app. done. }
  rewrite Hall in Hrun, Hleft. exists p', p''. done.
Qed.

Lemma enqueued_chunks_play_in_order_witness :
  decode_all [[x01; x00; x02; x00]; [x03; x00]] = Some [[1; 2]; [3]] /\
  exists p' p'',
    add_all [[x01; x00; x02; x00]; [x03; x00]] AudioUtil.__init__
      = (Ok tt, p') /\
    run_callbacks [2; 3] p' = Some ([1; 2; 3; 0; 0], p'').
Proof.
  split; [reflexivity |].
  destruct (enqueued_chunks_play_in_order
              [[x01; x00; x02; x00]; [x03; x00]] [[1; 2]; [3]]
              AudioUtil.__init__ [2; 3] eq_refl)
    as (p' & p'' & Hadd & Hrun & _).
  exists p', p''. split; [exact Hadd | exact Hrun].
Defined.

(** ** The frame counter *)

(** X4.  Over a run of callbacks nothing queued is lost or played twice
    (the samples written, without the padding, followed by what is still
    queued are what was queued), the frame counter grows by the number of
    samples written without the padding, and [playing] and the stream are
    left alone. *)
Theorem run_counts_played_samples (blocks : list Z) (p : AudioPlayerAsync) :
  let M := (length (queued p) `min` requested blocks)%nat in
  exists out p',
    run_callbacks blocks p = Some (out, p') /\
    take M out ++ queued p' = queued p /\
    drop M out = replicate (requested blocks - M) 0 /\
    _frame_count p' = _frame_count p + Z.of_nat M /\
    playing p' = playing p /\ stream p' = stream p.
Proof.
  revert p.
  induction blocks as [| frames blocks IH]; intros p; cbn [run_callbacks].
  - exists [], p. cbn [requested foldr]. rewrite Nat.min_0_r. simpl.
    repeat split; try done. lia.
  - destruct (PlaybackProofs.callback_spec frames p)
      as (p1 & Hcb & Hq1 & _ & Hc1 & Hpl1 & Hst1).
    rewrite Hcb.
    destruct (IH p1) as (out & p2 & Hrun & Hkeep & Hpad & Hc2 & Hpl2 & Hst2).
    rewrite Hrun. eexists. exists p2. split; [reflexivity |].
    rewrite Hq1 in Hkeep, Hpad, Hc2. rewrite length_drop in *.
    cbn [requested foldr]. fold (requested blocks).
    set (S := length (queued p)) in *. set (n := Z.to_nat frames) in *.
    set (F := requested blocks) in *.
    rewrite Hc2, Hc1, Hpl2, Hpl1, Hst2, Hst1.
    assert (Hlen : length (take (S `min` n) (queued p)) = (S `min` n)%nat)
      by (rewrite length_take; unfold S; lia).
    destruct (decide (S <= n)%nat) as [Hunder | Hfull].
    + replace (S `min` n)%nat with S in * by lia.
      replace ((S - S) `min` F)%nat with 0%nat in * by lia.
      replace (S `min` (n + F))%nat with S by lia.
      rewrite take_0, drop_0 in *. simpl in Hkeep.
      rewrite Nat.sub_0_r in Hpad.
      rewrite <- !app_assoc, take_app_length', drop_app_length' by done.
      rewrite Hpad, Hkeep, take_drop.
      repeat split; try done; [| lia].
      rewrite PlaybackProofs.replicate_app. f_equal. lia.
    + replace (S `min` n)%nat with n in * by lia.
      replace (n - n)%nat with 0%nat by lia. simpl. rewrite app_nil_r.
      replace (S `min` (n + F))%nat with (n + (S - n) `min` F)%nat by lia.
      rewrite take_app_add', drop_app_add' by done.
      rewrite <- app_assoc, Hkeep, take_drop, Hpad.
      repeat split; try done; [f_equal; lia | lia].
Qed.

(** A callback on an empty queue writes zeros and changes nothing. *)
Lemma callback_on_empty_queue (frames : Z) (p : AudioPlayerAsync) :
  queue p = [] ->
  callback frames p = Some (replicate (Z.to_nat frames) 0, p).
Proof.
  destruct p as [q st pl fc]. simpl. intros ->. unfold callback. simpl.
  rewrite andb_false_r. unfold set_frame_count, set_queue. simpl.
  rewrite Z.add_0_r. f_equal. f_equal.
  change (len []) with 0. rewrite Z.sub_0_r. unfold np_zeros.
  destruct (decide (0 < frames)).
  - by rewrite bool_decide_eq_true_2.
  - rewrite bool_decide_eq_false_2 by done.
    by replace (Z.to_nat frames) with 0%nat by lia.
Qed.

Lemma run_on_empty_queue (blocks : list Z) (p : AudioPlayerAsync) :
  queue p = [] ->
  run_callbacks blocks p = Some (replicate (requested blocks) 0, p).
Proof.
  intros Hq. induction blocks as [| frames blocks IH]; [done |].
  cbn [run_callbacks]. rewrite callback_on_empty_queue, IH by done.
  cbn [requested foldr]. fold (requested blocks).
  by rewrite PlaybackProofs.replicate_app.
Qed.

(** X5.  After [stop], whatever was queued and for every run of callbacks
    until the next enqueue, only silence is written; [stop] empties the
    queue and clears [playing] but does not reset the frame counter, and
    the silent callbacks do not count. *)
Theorem stop_silences_playback (p : AudioPlayerAsync) (blocks : list Z) :
  let p0 := (stop p).2 in
  (stop p).1 = Ok tt /\
  queue p0 = [] /\ playing p0 = false /\
  _frame_count p0 = _frame_count p /\
  run_callbacks blocks p0 = Some (replicate (requested blocks) 0, p0).
Proof.
  intros p0. repeat split. by apply run_on_empty_queue.
Qed.

End PlaybackCoverage.

(* ===================================================================== *)
(** * Dialogue pipeline: further properties *)
(* ===================================================================== *)

Module PipelineCoverage.
Import AudioUtil App Pipeline Coverage PipelineProofs.

Local Open Scope string_scope.
Local Open Scope list_scope.

(** ** Cancelling *)

(** X6.  [cancel_ongoing_response] works only while the agent is
    responding: called with the responding flag false it raises
    [AttributeError] (the player has no [is_playing]) and changes nothing.
    Called with the flag true it never raises, whatever the remote side
    does: it sends the cancel command when there is a connection and
    speech mode is on and no command otherwise, stops and empties the
    player, resets the counter, the caption, the transcript buffers and
    the current audio item, and leaves the turn log, the connection and
    speech mode as they were. *)
Theorem cancel_needs_responding (rm : remote) (st : DialogueSystem) :
  (is_npc_responding st = false ->
   cancel_ongoing_response rm st
   = (Raise (AttributeError
        "'AudioPlayerAsync' object has no attribute 'is_playing'"), st)) /\
  (is_npc_responding st = true ->
   let r := cancel_ongoing_response rm st in
   r.1 = Ok tt /\
   trace r.2
   = trace st ++
     match realtime_conn st with
     | Some c => if speech_mode st then [Send c ResponseCancel] else []
     | None => []
     end /\
   queue (audio_player r.2) = [] /\
   playing (audio_player r.2) = false /\
   _frame_count (audio_player r.2) = 0 /\
   npc_message r.2 = "" /\ acc_items r.2 = ∅ /\
   last_audio_item_id r.2 = None /\ is_npc_responding r.2 = false /\
   conversation_history r.2 = conversation_history st /\
   realtime_conn r.2 = realtime_conn st /\
   speech_mode r.2 = speech_mode st).
Proof.
  destruct st as [msg hist resp npc c sm last acc pl sent act ini tr].
  simpl. split; intros ->; ds_unfold; simpl; [done |].
  destruct c as [c |], sm; simpl; rewrite ?app_nil_r;
    try destruct (send_raises rm ResponseCancel); simpl; done.
Qed.

Lemma cancel_needs_responding_witness :
  is_npc_responding text_state = false /\
  is_npc_responding responding_state = true /\
  (cancel_ongoing_response broken_remote text_state).2 = text_state /\
  queue (audio_player
           (cancel_ongoing_response broken_remote responding_state).2) = [].
Proof.
  split; [reflexivity |]. split; [reflexivity |]. split.
  - exact (f_equal snd (proj1 (cancel_needs_responding broken_remote
                                 text_state) eq_refl)).
  - exact (proj1 (proj2 (proj2 (proj2 (cancel_needs_responding broken_remote
                                         responding_state) eq_refl)))).
Defined.

(** ** The turn log *)

Lemma handle_realtime_event_log cd rm ev st :
  exists new,
    conversation_history (handle_realtime_event cd rm ev st).2
      = conversation_history st ++ new /\
    (length new <= 1)%nat.
Proof.
  destruct st as [msg hist resp npc c sm last acc pl sent act ini tr].
  destruct ev; ds_unfold; unfold add_data; case_tests; py_unfold; simpl;
    case_tests;
    first [ exists []; split; [by rewrite app_nil_r | simpl; lia]
          | eexists [_]; split; [reflexivity | simpl; lia] ].
Qed.

Lemma send_message_log rm text_input st :
  exists new,
    conversation_history (send_message rm text_input st).2
      = conversation_history st ++ new /\
    (length new <= 1)%nat.
Proof.
  destruct st as [msg hist resp npc c sm last acc pl sent act ini tr].
  unfold send_message. ds_unfold. case_tests;
    first [ exists []; split; [by rewrite app_nil_r | simpl; lia]
          | eexists [_]; split; [reflexivity | simpl; lia] ].
Qed.

Lemma mic_pass_log cd rm tk st :
  conversation_history (mic_pass cd rm tk st).2 = conversation_history st.
Proof.
  destruct st as [msg hist resp npc c sm last acc pl sent act ini tr].
  destruct tk as [ra [[data overflowed] | e]];
    unfold mic_pass, mic_iteration; ds_unfold; case_tests; done.
Qed.

(** X7.  The turn log is append-only: over any execution (passes of the
    capture loop, handlers of inbound events and typed messages in any
    order, whatever the remote side answers) the log at the end is the
    log at the start followed by at most one new turn per step, so no
    turn, the system turn included, is changed or removed. *)
Theorem turn_log_is_append_only (cd : codec) (steps : list step) :
  forall (mic_alive : bool) (st : DialogueSystem),
  exists new,
    conversation_history (run cd steps mic_alive st)
      = conversation_history st ++ new /\
    (length new <= length steps)%nat.
Proof.
  induction steps as [| [rm tk | rm ev | rm text_input] steps IH];
    intros mic_alive st; simpl.
  - exists []. by rewrite app_nil_r.
  - destruct mic_alive.
    + pose proof (mic_pass_log cd rm tk st) as Hlog.
      destruct (mic_pass cd rm tk st) as [[alive | e] st1]; simpl in Hlog;
        [destruct (IH alive st1) as (new & Hn & Hl)
        | destruct (IH false st1) as (new & Hn & Hl)];
        exists new; rewrite Hn, Hlog; split; [done | lia | done | lia].
    + destruct (IH false st) as (new & Hn & Hl). exists new.
      split; [done | lia].
  - destruct (handle_realtime_event_log cd rm ev st) as (new1 & Hn1 & Hl1).
    destruct (IH mic_alive (handle_realtime_event cd rm ev st).2)
      as (new2 & Hn2 & Hl2).
    exists (new1 ++ new2). rewrite Hn2, Hn1, <- app_assoc, length_app.
    split; [done | lia].
  - destruct (send_message_log rm text_input st) as (new1 & Hn1 & Hl1).
    destruct (IH mic_alive (send_message rm text_input st).2)
      as (new2 & Hn2 & Hl2).
    exists (new1 ++ new2). rewrite Hn2, Hn1, <- app_assoc, length_app.
    split; [done | lia].
Qed.

(** ** Audio deltas, continued *)

(** X8.  An audio delta of the item already playing leaves the
    played-frame counter and the current item-id as they are: the counter
    is reset only when the item-id changes. *)
Theorem continuing_audio_item_keeps_counter (cd : codec) (rm : remote)
    (item_id delta : string) (st : DialogueSystem) :
  last_audio_item_id st = Some item_id ->
  let r := handle_realtime_event cd rm (ResponseAudioDelta item_id delta) st in
  r.1 = Ok tt /\
  _frame_count (audio_player r.2) = _frame_count (audio_player st) /\
  last_audio_item_id r.2 = Some item_id.
Proof.
  intros Hsame r. subst r. split; [apply handle_realtime_event_returns |].
  destruct st as [msg hist resp npc c sm last acc pl sent act ini tr].
  simpl in Hsame. subst last. ds_unfold. simpl.
  rewrite bool_decide_eq_true_2 by done. simpl.
  destruct (b64decode cd delta) as [b |]; simpl; [| done].
  unfold add_data. destruct (np_frombuffer_int16 b); simpl; [| done].
  py_unfold. simpl. destruct (playing pl); simpl; done.
Qed.

Lemma continuing_audio_item_keeps_counter_witness :
  last_audio_item_id responding_state = Some "r0" /\
  _frame_count (audio_player
    (handle_realtime_event sample_codec quiet_remote
       (ResponseAudioDelta "r0" "AwA=") responding_state).2) = 480.
Proof.
  split; [reflexivity |].
  exact (proj1 (proj2 (continuing_audio_item_keeps_counter sample_codec
                         quiet_remote "r0" "AwA=" responding_state eq_refl))).
Defined.

(** X9.  The responding flag after an audio delta tells whether its
    payload could be played.  When [b64decode] raises on the payload (as
    it does on incorrect padding), or the payload decodes to an odd
    number of bytes, the handler still returns normally: nothing is
    enqueued, the output stream is not touched and the responding flag is
    false.  When the payload decodes to an even number of bytes, the flag
    is true, the samples are at the back of the queue and playback is on,
    started by this call when it was off.  A payload that decodes to no
    byte at all is among the latter: [b64decode] does not refuse the
    characters outside the base64 alphabet, it discards them, so that such
    a payload puts an empty array in the queue and starts playback.  No
    call leaves the process in any of the cases. *)
Theorem audio_delta_payload (cd : codec) (rm : remote)
    (item_id delta : string) (st : DialogueSystem) :
  let r := handle_realtime_event cd rm (ResponseAudioDelta item_id delta) st in
  let decoded := match b64decode cd delta with
                 | Some b => np_frombuffer_int16 b
                 | None => None
                 end in
  r.1 = Ok tt /\ trace r.2 = trace st /\
  (decoded = None ->
     is_npc_responding r.2 = false /\
     queue (audio_player r.2) = queue (audio_player st) /\
     playing (audio_player r.2) = playing (audio_player st) /\
     stream (audio_player r.2) = stream (audio_player st)) /\
  (forall samples, decoded = Some samples ->
     is_npc_responding r.2 = true /\
     queue (audio_player r.2) = queue (audio_player st) ++ [samples] /\
     playing (audio_player r.2) = true /\
     stream (audio_player r.2)
     = (if playing (audio_player st) then [] else [StreamStart])
       ++ stream (audio_player st)) /\
  (b64decode cd delta = Some [] ->
     is_npc_responding r.2 = true /\
     queue (audio_player r.2) = queue (audio_player st) ++ [[]] /\
     playing (audio_player r.2) = true).
Proof.
  intros r decoded. subst r decoded.
  split; [apply handle_realtime_event_returns |].
  destruct st as [msg hist resp npc c sm last acc pl sent act ini tr].
  ds_unfold. simpl.
  destruct (bool_decide (Some item_id = last)); simpl;
    destruct (b64decode cd delta) as [b |]; simpl; try done;
    unfold add_data; destruct (np_frombuffer_int16 b) as [samples |] eqn:Eb;
    simpl; try done; py_unfold; simpl; destruct (playing pl) eqn:E; simpl;
    (split; [done |]); (split; [done |]);
    (split; [by intros s' [= <-] |]);
    intros [= ->]; simpl in Eb; first [discriminate Eb | by injection Eb as <-].
Qed.

Lemma audio_delta_payload_witness :
  b64decode sample_codec "Aw==" = Some [x03] /\
  np_frombuffer_int16 [x03] = None /\
  is_npc_responding
    (handle_realtime_event sample_codec quiet_remote
       (ResponseAudioDelta "r1" "Aw==") text_state).2 = false.
Proof.
  split; [reflexivity |]. split; [reflexivity |].
  exact (proj1 (proj1 (proj2 (proj2 (audio_delta_payload sample_codec
           quiet_remote "r1" "Aw==" text_state))) eq_refl)).
Defined.

(** A payload of exclamation marks decodes to no byte: the handler queues
    an empty array on the idle player and starts the output stream. *)
Example empty_audio_delta_starts_playback :
  let st' := (handle_realtime_event lenient_codec quiet_remote
                (ResponseAudioDelta "r1" "!!!!") text_state).2 in
  b64decode lenient_codec "!!!!" = Some [] /\
  audio_player text_state = AudioUtil.__init__ /\
  audio_player st' = mkPlayer [[]] [StreamStart] true 0 /\
  is_npc_responding st' = true.
Proof. vm_compute. done. Qed.

(** ** End of user speech *)

(** X10.  On speech-done the handler clears [speech_active] and, on the
    connection it holds, sends the commit command and then the response
    request, in that order; when the commit raises the response request
    is not sent.  Without a connection nothing is sent.  The handler
    returns normally in every case; unless both commands went out, the
    responding flag is false afterwards.  The turn log is not touched. *)
Theorem speech_done_commits_then_requests (cd : codec) (rm : remote)
    (st : DialogueSystem) :
  let r := handle_realtime_event cd rm InputAudioBufferSpeechDone st in
  let sent :=
    match realtime_conn st with
    | None => []
    | Some c =>
        match send_raises rm InputAudioBufferCommit with
        | Some _ => [Send c InputAudioBufferCommit]
        | None => [Send c InputAudioBufferCommit;
                   Send c (App.ResponseCreate None)]
        end
    end in
  let all_sent :=
    bool_decide (is_Some (realtime_conn st))
    && bool_decide (send_raises rm InputAudioBufferCommit = None)
    && bool_decide (send_raises rm (App.ResponseCreate None) = None) in
  r.1 = Ok tt /\
  trace r.2 = trace st ++ sent /\
  speech_active r.2 = false /\
  is_npc_responding r.2 = (if all_sent then is_npc_responding st else false) /\
  conversation_history r.2 = conversation_history st.
Proof.
  intros r sent all_sent. subst r sent all_sent.
  split; [apply handle_realtime_event_returns |].
  destruct st as [msg hist resp npc c sm last acc pl sent act ini tr].
  ds_unfold. simpl. destruct c as [c |]; simpl.
  - destruct (send_raises rm InputAudioBufferCommit) as [e |] eqn:E1; simpl.
    + done.
    + destruct (send_raises rm (App.ResponseCreate None)) as [e |] eqn:E2;
        simpl; rewrite <- ?app_assoc; done.
  - rewrite app_nil_r. done.
Qed.

(** ** Typed messages *)

(** X11.  A typed message in streaming mode (speech mode on, connection
    set, session initialised, turn log not empty) goes out on the
    connection: after the cancel command if the agent was responding, the
    user message with the typed text and then the response request, in
    that order; the response request is not sent when the message
    fails.  The call returns normally, makes no fallback request and
    leaves the turn log as it was; the caption becomes the apology
    exactly when one of the two sends raises. *)
Theorem typed_message_while_streaming (rm : remote) (text_input : string)
    (st : DialogueSystem) :
  conversation_history st <> [] ->
  streaming st = true ->
  let r := send_message rm text_input st in
  exists c,
    realtime_conn st = Some c /\
    r.1 = Ok tt /\
    trace r.2
    = trace st
      ++ (if is_npc_responding st then [Send c ResponseCancel] else [])
      ++ match send_raises rm (ConversationItemCreate text_input) with
         | Some _ => [Send c (ConversationItemCreate text_input)]
         | None => [Send c (ConversationItemCreate text_input);
                    Send c (App.ResponseCreate None)]
         end /\
    conversation_history r.2 = conversation_history st /\
    (npc_message r.2 = apology <->
     npc_message st = apology /\ is_npc_responding st = false \/
     send_raises rm (ConversationItemCreate text_input) <> None \/
     send_raises rm (App.ResponseCreate None) <> None).
Proof.
  intros Hh Hs r. subst r.
  destruct (streaming_flags st Hs) as (Hsm & [c Hc] & Hini).
  exists c. split; [done |].
  destruct st as [msg hist resp npc c0 sm last acc pl sent act ini tr].
  simpl in *. subst sm c0 ini.
  unfold send_message. ds_unfold. simpl.
  rewrite bool_decide_eq_false_2 by done. simpl.
  destruct resp; simpl;
    destruct (send_raises rm ResponseCancel) as [e0 |]; simpl;
    destruct (send_raises rm (ConversationItemCreate text_input)) as [e1 |];
    simpl;
    try destruct (send_raises rm (App.ResponseCreate None)) as [e2 |]; simpl;
    rewrite <- ?app_assoc; simpl;
    (split; [done |]); (split; [done |]); (split; [done |]);
    unfold apology; split; intros H;
    try done; try (right; left; done); try (right; right; done);
    try (by left);
    destruct H as [[H ?] | [H | H]]; done.
Qed.

Lemma typed_message_while_streaming_witness :
  conversation_history responding_state <> [] /\
  streaming responding_state = true /\
  trace (send_message quiet_remote "hi" responding_state).2
  = trace responding_state
    ++ [Send (Conn 0) ResponseCancel;
        Send (Conn 0) (ConversationItemCreate "hi");
        Send (Conn 0) (App.ResponseCreate None)].
Proof.
  assert (Hh : conversation_history responding_state <> [])
    by (intros E; discriminate E).
  split; [exact Hh |]. split; [reflexivity |].
  destruct (typed_message_while_streaming quiet_remote "hi" responding_state
              Hh eq_refl) as (c & Hc & _ & Htr & _).
  injection Hc as <-. exact Htr.
Defined.

(** X12.  A typed message outside streaming mode, with a turn log that is
    not empty, makes exactly one fallback request, carrying the whole turn
    log, and no call on the connection.  When the request returns a reply,
    the reply is appended to the log as one assistant turn, becomes the
    caption and sets the responding flag; when it returns no choice, the
    log is unchanged and the caption is the apology.  With an empty turn
    log [send_message] does nothing at all, whatever the mode. *)
Theorem typed_message_fallback (rm : remote) (text_input : string)
    (st : DialogueSystem) :
  (conversation_history st = [] ->
   send_message rm text_input st = (Ok tt, st)) /\
  (conversation_history st <> [] ->
   streaming st = false ->
   forall choices,
   chat_completions rm (conversation_history st) = Ok choices ->
   let r := send_message rm text_input st in
   r.1 = Ok tt /\
   trace r.2
   = trace st ++ [ChatCompletionsCreate (conversation_history st)] /\
   match choices with
   | reply :: _ =>
       conversation_history r.2
         = conversation_history st ++ [Turn Assistant reply] /\
       npc_message r.2 = reply /\ is_npc_responding r.2 = true
   | [] =>
       conversation_history r.2 = conversation_history st /\
       npc_message r.2 = apology /\ is_npc_responding r.2 = false
   end).
Proof.
  destruct st as [msg hist resp npc c sm last acc pl sent act ini tr].
  unfold send_message, streaming. simpl. split.
  - intros ->. done.
  - intros Hh Hs choices Hchat. ds_unfold. simpl.
    rewrite bool_decide_eq_false_2 by done. simpl.
    assert (Hcase : sm = false \/ c = None \/ ini = false).
    { destruct sm; [| by left]. destruct c as [c |]; [| by right; left].
      rewrite bool_decide_eq_true_2 in Hs by (by eexists).
      right; right. by destruct ini. }
    destruct Hcase as [-> | [-> | ->]]; simpl;
      [| destruct sm; simpl | destruct sm; simpl; [destruct c; simpl |]];
      rewrite Hchat; destruct choices; simpl; done.
Qed.

Lemma typed_message_fallback_witness :
  conversation_history text_state <> [] /\
  streaming text_state = false /\
  conversation_history (send_message quiet_remote "hi" text_state).2
  = conversation_history text_state ++ [Turn Assistant "Of course."].
Proof.
  assert (Hh : conversation_history text_state <> [])
    by (intros E; discriminate E).
  split; [exact Hh |]. split; [reflexivity |].
  exact (proj1 (proj2 (proj2 (proj2 (typed_message_fallback quiet_remote
           "hi" text_state) Hh eq_refl ["Of course."] eq_refl)))).
Defined.

(** ** The capture loop, continued *)

(** X13.  What a pass of the capture loop forwards: exactly the chunk it
    read, as the base64 of its bytes, in one append-audio command, when
    the pipeline is streaming, a whole chunk of 480 samples is available,
    the read did not overflow and the chunk is not empty; nothing
    otherwise.  A chunk read with the overflow flag is dropped. *)
Theorem capture_pass_forwards_chunk (cd : codec) (rm : remote)
    (tk : mic_tick) (st : DialogueSystem) :
  appends (mic_iteration cd rm tk st).2 = appends st ++ forwarded cd tk st.
Proof.
  destruct st as [msg hist resp npc c sm last acc pl sent act ini tr].
  destruct tk as [ra [[data overflowed] | e]];
    unfold mic_iteration, forwarded, streaming, appends, len;
    change read_size with 480; ds_unfold; simpl;
    destruct sm, c as [c |], ini; simpl;
    rewrite ?filter_app; simpl; rewrite ?app_nil_r; try done;
    repeat case_bool_decide; try lia; simpl;
    rewrite ?filter_app; simpl; rewrite ?app_nil_r; try done;
    try (destruct overflowed; simpl; rewrite ?app_nil_r; try done);
    destruct data as [| z data]; simpl in *; try lia; try done;
    repeat case_bool_decide; try lia; try done; simpl;
    rewrite ?filter_app; simpl; rewrite ?app_nil_r; try done;
    case_tests; rewrite ?filter_app; simpl; rewrite ?app_nil_r; done.
Qed.

(** A pass of the capture loop opens and releases no device and leaves
    speech mode and the session flag alone. *)
Lemma mic_iteration_frame cd rm tk st :
  let st' := (mic_iteration cd rm tk st).2 in
  (exists new, trace st' = trace st ++ new /\
               filter is_mic_open new = [] /\
               filter is_mic_close new = []) /\
  speech_mode st' = speech_mode st /\
  realtime_initialized st' = realtime_initialized st.
Proof.
  destruct st as [msg hist resp npc c sm last acc pl sent act ini tr].
  destruct tk as [ra [[data overflowed] | e]];
    unfold mic_iteration; ds_unfold; case_tests;
    (split; [trace_extension | done]).
Qed.

Lemma mic_loop_cons cd rm tk ticks st :
  mic_loop cd ((rm, tk) :: ticks) st
  = match mic_iteration cd rm tk st with
    | (Ok _, st1) => mic_loop cd ticks st1
    | (Raise e, st1) => (Raise e, st1)
    end.
Proof. reflexivity. Qed.

Lemma mic_loop_frame cd ticks : forall st,
  let st' := (mic_loop cd ticks st).2 in
  (exists new, trace st' = trace st ++ new /\
               filter is_mic_open new = [] /\
               filter is_mic_close new = []) /\
  speech_mode st' = speech_mode st /\
  realtime_initialized st' = realtime_initialized st.
Proof.
  induction ticks as [| [rm tk] ticks IH]; intros st.
  - simpl. split; [| done]. exists []. by rewrite app_nil_r.
  - rewrite mic_loop_cons.
    destruct (mic_iteration_frame cd rm tk st)
      as [(new1 & Htr1 & Ho1 & Hc1) [Hsm1 Hini1]].
    destruct (mic_iteration cd rm tk st) as [[[] | e] st1]; simpl in *.
    + destruct (IH st1) as [(new2 & Htr2 & Ho2 & Hc2) [Hsm2 Hini2]].
      split; [| by rewrite Hsm2, Hini2].
      exists (new1 ++ new2). rewrite Htr2, Htr1, <- app_assoc.
      split; [done |]. by rewrite !filter_app, Ho1, Ho2, Hc1, Hc2.
    + split; [| done]. by exists new1.
Qed.

(** X14.  [record_mic_audio] never raises and releases the input device
    on every exit path: in what it adds to the trace the device is closed
    exactly as many times as it was opened, and when the device was
    opened the close is the last effect. *)
Theorem record_mic_audio_releases_device (cd : codec) (opening : mic_open)
    (ticks : list (remote * mic_tick)) (st : DialogueSystem) :
  let r := record_mic_audio cd opening ticks st in
  r.1 = Ok tt /\
  exists new,
    trace r.2 = trace st ++ new /\
    length (filter is_mic_open new) = length (filter is_mic_close new) /\
    (filter is_mic_open new <> [] -> last new = Some MicClose).
Proof.
  unfold record_mic_audio. destruct opening as [e | e |].
  - split; [done |]. exists []. destruct st; simpl.
    rewrite app_nil_r. done.
  - split; [done |]. exists [MicOpen; MicClose]. destruct st; simpl.
    rewrite <- app_assoc. done.
  - py_unfold.
    destruct (mic_loop_frame cd ticks (log MicOpen st))
      as [(new & Htr & Ho & Hc) _].
    destruct (mic_loop cd ticks (log MicOpen st)) as [[[] | e] st1];
      simpl in *; (split; [done |]); exists ([MicOpen] ++ new ++ [MicClose]);
      (split; [destruct st, st1; simpl in *; rewrite Htr, <- !app_assoc; done |]);
      rewrite !filter_app, Ho, Hc;
      (split; [done |]); intros _;
      change (MicOpen :: new ++ [MicClose]) with ([MicOpen] ++ new ++ [MicClose]);
      rewrite app_assoc; apply last_snoc.
Qed.

(** X15.  [record_mic_audio] gives up speech mode exactly when something
    fails: when opening the device raises, or a pass of the loop raises
    (the device or the connection), it ends with speech mode off and the
    session marked not initialised; when nothing raises, both flags are
    as they were. *)
Theorem record_mic_audio_failure_disables_speech (cd : codec)
    (opening : mic_open) (ticks : list (remote * mic_tick))
    (st : DialogueSystem) :
  let r := record_mic_audio cd opening ticks st in
  let loop := mic_loop cd ticks (log MicOpen st) in
  (opening <> MicRuns \/ (exists e, loop.1 = Raise e) ->
   speech_mode r.2 = false /\ realtime_initialized r.2 = false) /\
  (opening = MicRuns -> loop.1 = Ok tt ->
   speech_mode r.2 = speech_mode st /\
   realtime_initialized r.2 = realtime_initialized st).
Proof.
  intros r loop. subst r loop. unfold record_mic_audio.
  destruct opening as [e | e |].
  - split; [by destruct st | done].
  - split; [by destruct st | done].
  - py_unfold.
    destruct (mic_loop_frame cd ticks (log MicOpen st)) as [_ [Hsm Hini]].
    destruct (mic_loop cd ticks (log MicOpen st)) as [[[] | e] st1];
      simpl in *; split.
    + intros [H | [e He]]; done.
    + intros _ _. destruct st, st1; simpl in *. done.
    + intros _. by destruct st1.
    + intros _ H. discriminate H.
Qed.

Lemma record_mic_audio_failure_disables_speech_witness :
  (exists e,
     (mic_loop sample_codec [(broken_remote, full_tick)]
        (log MicOpen responding_state)).1 = Raise e) /\
  speech_mode (record_mic_audio sample_codec MicRuns
                 [(broken_remote, full_tick)] responding_state).2 = false.
Proof.
  assert (H : exists e,
            (mic_loop sample_codec [(broken_remote, full_tick)]
               (log MicOpen responding_state)).1 = Raise e)
    by (eexists; reflexivity).
  split; [exact H |].
  exact (proj1 (proj1 (record_mic_audio_failure_disables_speech sample_codec
           MicRuns [(broken_remote, full_tick)] responding_state)
           (or_intror H))).
Defined.

Lemma record_mic_audio_releases_device_witness :
  exists new,
    trace (record_mic_audio sample_codec MicRuns
             [(broken_remote, full_tick)] responding_state).2
    = trace responding_state ++ new /\
    last new = Some MicClose.
Proof.
  destruct (proj2 (record_mic_audio_releases_device sample_codec MicRuns
                     [(broken_remote, full_tick)] responding_state))
    as (new & Htr & Hbal & Hlast).
  exists new. split; [exact Htr |]. apply Hlast.
  intros Hnone.
  rewrite Hnone in Hbal. simpl in Hbal.
  assert (Hin : MicClose ∈ new).
  { assert (H : MicClose ∈ trace responding_state ++ new)
      by (rewrite <- Htr; vm_compute; set_solver).
    apply elem_of_app in H as [H | H]; [| done].
    vm_compute in H. set_solver. }
  assert (Hf : MicClose ∈ filter is_mic_close new)
    by (apply list_elem_of_filter; split; [done | done]).
  destruct (filter is_mic_close new); [set_solver | discriminate Hbal].
Defined.

(** ** Connecting, continued *)

(** One iteration of the loop over the attempts. *)
Lemma attempts_from_step cd outcomes attempt todo st :
  attempts_from cd outcomes attempt (S todo) st
  = match attempt_body cd (outcomes attempt) st with
    | (Ok _, st1) => attempts_from cd outcomes (attempt + 1) todo st1
    | (Raise _, st1) =>
        let st2 := set_realtime_initialized false
                     (set_realtime_conn None st1) in
        if bool_decide (attempt < max_attempts - 1)
        then attempts_from cd outcomes (attempt + 1) todo
               (log (Sleep 2000) st2)
        else (Ok tt, set_speech_mode false st2)
    end.
Proof.
  cbn [attempts_from]. unfold sleep. py_unfold.
  destruct (attempt_body cd (outcomes attempt) st) as [[[] | e] st1];
    [done |].
  destruct (bool_decide (attempt < max_attempts - 1)); done.
Qed.

(** What one attempt adds to the trace. *)
Lemma attempt_body_trace cd oc st :
  exists new,
    trace (attempt_body cd oc st).2 = trace st ++ new /\
    attempts_made new = 1%nat /\ sleeps new = [] /\
    length (filter is_close new) = (if established oc then 1 else 0)%nat /\
    if fails oc then exists e, (attempt_body cd oc st).1 = Raise e
    else (attempt_body cd oc st).1 = Ok tt.
Proof.
  unfold attempt_body. py_unfold.
  destruct oc as [e | update inbound stream_end]; simpl.
  - exists [Connect (fresh_conn st)]. destruct st; simpl. eauto 10.
  - destruct update as [e |]; simpl.
    + exists [Connect (fresh_conn st);
              Send (fresh_conn st) (session_update st);
              Close (fresh_conn st)].
      split; [| split; [| split; [| split]]];
        [| done | done | done | by eexists].
      destruct st; simpl. rewrite <- !app_assoc. reflexivity.
    + match goal with |- context [handle_events cd inbound ?s] =>
        pose proof (handle_events_returns cd inbound s) as Hret;
        destruct (handle_events_frame cd inbound s) as (new & Htr & Hnew);
        destruct (handle_events cd inbound s) as [r s']
      end.
      simpl in Hret, Htr. subst r.
      destruct (handler_effects_quiet new Hnew) as [Ha Hs].
      assert (Hcl : filter is_close new = []).
      { clear -Hnew. induction new as [| e new IH]; [done |].
        simpl in Hnew. apply andb_prop in Hnew as [He Hnew].
        rewrite filter_cons_False; [by apply IH |].
        destruct e as [| | c0 []| | | |]; simpl in *; try done;
          by intros []. }
      exists ([Connect (fresh_conn st);
               Send (fresh_conn st) (session_update st)]
              ++ new ++ [Close (fresh_conn st)]).
      split; [| split; [| split; [| split]]].
      * destruct stream_end; destruct s', st; simpl in *;
          rewrite Htr, <- !app_assoc; reflexivity.
      * rewrite !attempts_made_app, Ha. reflexivity.
      * rewrite !sleeps_app, Hs. reflexivity.
      * rewrite !filter_app, Hcl. reflexivity.
      * destruct stream_end; simpl; eauto.
Qed.

(** The attempts from [attempt] on, when they are the last [todo]. *)
Lemma attempts_from_exact cd outcomes : forall todo attempt st,
  attempt + Z.of_nat todo = max_attempts ->
  let r := attempts_from cd outcomes attempt todo st in
  exists new,
    trace r.2 = trace st ++ new /\
    attempts_made new = todo /\
    sleeps new = replicate (delays_from outcomes attempt todo) 2000 /\
    length (filter is_close new) = established_from outcomes attempt todo /\
    ((0 < todo)%nat -> fails (outcomes (max_attempts - 1)) = true ->
     speech_mode r.2 = false).
Proof.
  induction todo as [| todo IH]; intros attempt st Hsum.
  { exists []. simpl. rewrite app_nil_r. repeat split; try done. lia. }
  rewrite attempts_from_step. cbn [delays_from established_from].
  destruct (attempt_body_trace cd (outcomes attempt) st)
    as (n1 & Ht1 & Ha1 & Hs1 & Hc1 & Hr1).
  destruct (attempt_body cd (outcomes attempt) st) as [r1 s1].
  simpl in Ht1, Hr1.
  destruct (fails (outcomes attempt)) eqn:Hfail.
  - destruct Hr1 as [e ->]. cbn zeta.
    destruct (decide (attempt < max_attempts - 1)) as [Hmore | Hlast].
    + rewrite !bool_decide_eq_true_2 by done.
      set (s2 := log (Sleep 2000)
                   (set_realtime_initialized false
                      (set_realtime_conn None s1))).
      assert (Ht2 : trace s2 = trace st ++ n1 ++ [Sleep 2000]).
      { unfold s2. destruct s1; simpl in *. by rewrite Ht1, <- app_assoc. }
      destruct (IH (attempt + 1) s2) as (n2 & Hn2 & Ha2 & Hs2 & Hc2 & Hoff);
        [lia |].
      exists (n1 ++ [Sleep 2000] ++ n2).
      split; [by rewrite Hn2, Ht2, <- !app_assoc |].
      rewrite !attempts_made_app, !sleeps_app, !filter_app, !length_app.
      rewrite Ha1, Ha2, Hs1, Hs2, Hc1, Hc2.
      change (attempts_made [Sleep 2000]) with 0%nat.
      change (sleeps [Sleep 2000]) with [2000].
      split; [done |]. split; [done |]. split; [simpl; lia |].
      intros _ Hf. apply Hoff; [unfold max_attempts in *; lia | done].
    + rewrite !bool_decide_eq_false_2 by done.
      assert (todo = 0%nat) by lia. subst todo.
      exists n1. rewrite Ha1, Hs1, Hc1. simpl.
      split; [by destruct s1 |]. split; [done |]. split; [done |].
      split; [lia |]. intros _ _. by destruct s1.
  - rewrite Hr1. simpl.
    destruct (IH (attempt + 1) s1) as (n2 & Hn2 & Ha2 & Hs2 & Hc2 & Hoff);
      [lia |].
    exists (n1 ++ n2). split; [by rewrite Hn2, Ht1, <- app_assoc |].
    rewrite !attempts_made_app, !sleeps_app, !filter_app, !length_app.
    rewrite Ha1, Ha2, Hs1, Hs2, Hc1, Hc2.
    split; [done |]. split; [done |]. split; [done |].
    intros _ Hf. destruct todo as [| todo'].
    + assert (attempt = max_attempts - 1) by lia. subst attempt.
      rewrite Hf in Hfail. discriminate Hfail.
    + apply Hoff; [lia | done].
Qed.

(** X16.  [initialize_realtime] always makes exactly three connection
    attempts, whatever they meet: a session that ends without an error is
    followed by a new attempt at once, and a failed first or second
    attempt by a new attempt after 2 seconds, so it sleeps once per
    failure among the first two attempts.  Every connection it
    establishes is closed by the time it returns, and it ends with speech
    mode off whenever the third attempt fails. *)
Theorem connect_always_tries_three_times (cd : codec)
    (outcomes : Z -> attempt_outcome) (st : DialogueSystem) :
  let r := initialize_realtime cd outcomes st in
  exists new,
    trace r.2 = trace st ++ new /\
    attempts_made new = 3%nat /\
    sleeps new = replicate (early_failures outcomes) 2000 /\
    length (filter is_close new) = connections_established outcomes /\
    (fails (outcomes 2) = true -> speech_mode r.2 = false).
Proof.
  unfold initialize_realtime. py_unfold.
  change (Z.to_nat max_attempts) with 3%nat.
  destruct (attempts_from_exact cd outcomes 3 0
              (set_realtime_initialized false st) eq_refl)
    as (new & Htr & Ha & Hs & Hc & Hoff).
  exists new. split; [rewrite Htr; by destruct st |].
  split; [done |]. split; [| split].
  - rewrite Hs. f_equal. unfold early_failures. cbn [delays_from].
    change (0 + 1) with 1. change (1 + 1) with 2.
    rewrite (bool_decide_eq_true_2 (0 < max_attempts - 1)) by done.
    rewrite (bool_decide_eq_true_2 (1 < max_attempts - 1)) by done.
    rewrite (bool_decide_eq_false_2 (2 < max_attempts - 1)) by done.
    rewrite !andb_true_r, andb_false_r. lia.
  - rewrite Hc. unfold connections_established. cbn [established_from].
    change (0 + 1) with 1. change (1 + 1) with 2.
    rewrite !filter_cons, filter_nil.
    destruct (established (outcomes 0)), (established (outcomes 1)),
      (established (outcomes 2)); reflexivity.
  - intros Hf. apply Hoff; [lia | done].
Qed.

Lemma connect_always_tries_three_times_witness :
  fails (unreachable_remote 2) = true /\
  speech_mode
    (initialize_realtime sample_codec unreachable_remote
       (set_speech_mode true text_state)).2 = false.
Proof.
  split; [reflexivity |].
  destruct (connect_always_tries_three_times sample_codec unreachable_remote
              (set_speech_mode true text_state))
    as (new & _ & _ & _ & _ & Hoff).
  exact (Hoff eq_refl).
Defined.

(** Three sessions that end without an error: three connects, no delay,
    three closes. *)
Example three_sessions_in_a_row :
  trace (initialize_realtime sample_codec
           (fun _ => Connected None [] None) text_state).2
  = [Connect (Conn 0); Send (Conn 0) (session_update text_state);
     Close (Conn 0);
     Connect (Conn 1); Send (Conn 1) (session_update text_state);
     Close (Conn 1);
     Connect (Conn 2); Send (Conn 2) (session_update text_state);
     Close (Conn 2)].
Proof. vm_compute. reflexivity. Qed.

End PipelineCoverage.

(* ===================================================================== *)
(** * The input side: properties *)
(* ===================================================================== *)

Module UiCoverage.
Import AudioUtil App Pipeline Ui Coverage PipelineProofs.

Local Open Scope string_scope.
Local Open Scope list_scope.

(** Unfolds the methods of the input side down to the monad. *)
Ltac ui_unfold :=
  cbv [start_conversation handle_input on_core forget_realtime_conn];
  ds_unfold.

(** ** Starting a conversation *)

(** X17.  [start_conversation] with role HR or CEO returns normally and
    starts from a clean slate: the player is stopped and emptied and its
    counter reset, the transcript buffers and the current audio item are
    cleared, a connection still held is forgotten, the turn log is
    replaced by the single system turn of the role, and the caption is
    the greeting of the role.  The connection is not closed: [close] is
    not awaited, and the method makes no call that leaves the process.  It
    hands the event loop the connect task and then the capture task;
    taken as one step, before those tasks run, it never hands over the
    greeting request, since no connection is held at that point.  Speech
    mode is left as it was. *)
Theorem start_conversation_resets (repr : string -> string)
    (npc_role : string) (player_pos : option (list coordinate))
    (d : Dialogue) (greeting : string) :
  initial_message npc_role = Some greeting ->
  short_position player_pos = false ->
  let r := start_conversation repr npc_role player_pos d in
  r.1 = Ok tt /\
  active r.2 = true /\ input_active r.2 = true /\
  current_npc (core r.2) = Some npc_role /\
  queue (audio_player (core r.2)) = [] /\
  playing (audio_player (core r.2)) = false /\
  _frame_count (audio_player (core r.2)) = 0 /\
  acc_items (core r.2) = ∅ /\
  last_audio_item_id (core r.2) = None /\
  realtime_conn (core r.2) = None /\
  conversation_history (core r.2)
  = [Turn System (if bool_decide (npc_role = "HR")
                  then hr_prompt else ceo_prompt)] /\
  npc_message (core r.2) = greeting /\
  scheduled r.2 = scheduled d ++ [InitializeRealtime; RecordMicAudio] /\
  trace (core r.2) = trace (core d) /\
  speech_mode (core r.2) = speech_mode (core d).
Proof.
  intros Hmsg Hpos r. subst r.
  destruct d as [[msg hist resp npc c sm last acc pl sent act ini tr]
                 a ia ui ipp sch].
  ui_unfold. simpl. rewrite Hmsg.
  destruct player_pos as [[| p0 [| p1 [| p2 rest]]] |]; try done;
    simpl; destruct c as [c |]; simpl;
    rewrite <- ?app_assoc, ?app_nil_r; done.
Qed.

Lemma start_conversation_resets_witness :
  initial_message "CEO" = Some
    "Hello there, I am Michael Chen, CEO at Venture Builder AI. What can I do for you today?" /\
  short_position None = false /\
  conversation_history
    (core (start_conversation sample_repr "CEO" None open_dialogue).2)
  = [Turn System ceo_prompt] /\
  realtime_conn (core open_dialogue) = Some (Conn 0) /\
  realtime_conn
    (core (start_conversation sample_repr "CEO" None open_dialogue).2)
  = None /\
  trace (core (start_conversation sample_repr "CEO" None open_dialogue).2)
  = trace responding_state.
Proof.
  split; [reflexivity |]. split; [reflexivity |].
  pose proof (start_conversation_resets sample_repr "CEO" None open_dialogue _
                eq_refl eq_refl) as H.
  split; [| split; [reflexivity | split]].
  - exact (proj1 (proj2 (proj2 (proj2 (proj2 (proj2 (proj2 (proj2 (proj2
             (proj2 (proj2 H))))))))))).
  - exact (proj1 (proj2 (proj2 (proj2 (proj2 (proj2 (proj2 (proj2 (proj2
             (proj2 H)))))))))).
  - exact (proj1 (proj2 (proj2 (proj2 (proj2 (proj2 (proj2 (proj2 (proj2
             (proj2 (proj2 (proj2 (proj2 (proj2 H)))))))))))))).
Defined.

(** X18.  [start_conversation] with a role other than HR and CEO raises
    the [KeyError] of the role, whose [str] is the [repr] of the role, and
    only after the teardown: the dialogue is already active with that
    role, the player emptied, the connection forgotten (not closed: no
    call has left the process) and the two tasks handed over, while the
    turn log and the caption are still the old ones. *)
Theorem start_conversation_unknown_role (repr : string -> string)
    (npc_role : string) (player_pos : option (list coordinate))
    (d : Dialogue) :
  initial_message npc_role = None ->
  short_position player_pos = false ->
  let r := start_conversation repr npc_role player_pos d in
  r.1 = Raise (Exn "KeyError" (repr npc_role)) /\
  conversation_history (core r.2) = conversation_history (core d) /\
  npc_message (core r.2) = npc_message (core d) /\
  active r.2 = true /\ input_active r.2 = true /\
  current_npc (core r.2) = Some npc_role /\
  queue (audio_player (core r.2)) = [] /\
  playing (audio_player (core r.2)) = false /\
  realtime_conn (core r.2) = None /\
  trace (core r.2) = trace (core d) /\
  scheduled r.2 = scheduled d ++ [InitializeRealtime; RecordMicAudio].
Proof.
  intros Hmsg Hpos r. subst r.
  destruct d as [[msg hist resp npc c sm last acc pl sent act ini tr]
                 a ia ui ipp sch].
  ui_unfold. simpl. rewrite Hmsg.
  destruct player_pos as [[| p0 [| p1 [| p2 rest]]] |]; try done;
    simpl; destruct c as [c |]; simpl;
    rewrite <- ?app_assoc, ?app_nil_r; done.
Qed.

Lemma start_conversation_unknown_role_witness :
  initial_message "Manager" = None /\
  short_position None = false /\
  (start_conversation sample_repr "Manager" None open_dialogue).1
  = Raise (Exn "KeyError" "'Manager'").
Proof.
  split; [reflexivity |]. split; [reflexivity |].
  exact (proj1 (start_conversation_unknown_role sample_repr "Manager" None
                  open_dialogue eq_refl eq_refl)).
Defined.

(** ** Keys *)

(** [handle_input] ignores every event while the dialogue is not
    active or its input is not active, and every event that is not a key
    press: it returns [None] and changes nothing. *)
Theorem handle_input_ignores_when_inactive (so : str_ops) (ev : key_event)
    (d : Dialogue) :
  active d = false \/ input_active d = false \/ keydown ev = false ->
  handle_input so ev d = (Ok None, d).
Proof.
  destruct d as [co a ia ui ipp sch]. simpl. unfold handle_input. py_unfold.
  simpl. intros [-> | [-> | ->]]; simpl; [done | |].
  - by destruct a.
  - by destruct a, ia.
Qed.

Lemma handle_input_ignores_when_inactive_witness :
  active Ui.__init__ = false /\
  handle_input sample_str_ops (KeyEvent true K_RETURN "" false) Ui.__init__
  = (Ok None, Ui.__init__).
Proof.
  split; [reflexivity |].
  exact (handle_input_ignores_when_inactive sample_str_ops
           (KeyEvent true K_RETURN "" false) Ui.__init__ (or_introl eq_refl)).
Defined.

(** X19.  Shift+Q in an open dialogue ends the chat: the call returns the
    move-player-back command with the position recorded when the
    conversation started, the dialogue and its input are inactive, speech
    mode is off and no connection is held.  A connection held before is
    forgotten after the cancel task is handed over; it is not closed,
    [close] not being awaited, and no call leaves the process.  The text
    being typed and the turn log are left alone: the letter is not
    typed. *)
Theorem shift_q_ends_chat (so : str_ops) (ev : key_event) (d : Dialogue) :
  active d = true -> input_active d = true ->
  keydown ev = true -> lshift ev = true -> event_key ev = K_q ->
  let r := handle_input so ev d in
  r.1 = Ok (Some (MovePlayerBack (initial_player_pos d))) /\
  active r.2 = false /\ input_active r.2 = false /\
  speech_mode (core r.2) = false /\
  realtime_conn (core r.2) = None /\
  user_input r.2 = user_input d /\
  conversation_history (core r.2) = conversation_history (core d) /\
  trace (core r.2) = trace (core d) /\
  match realtime_conn (core d) with
  | Some c =>
      scheduled r.2 = scheduled d ++ [CancelOngoingResponse] /\
      realtime_initialized (core r.2) = false
  | None =>
      scheduled r.2 = scheduled d /\
      realtime_initialized (core r.2) = realtime_initialized (core d)
  end.
Proof.
  destruct d as [[msg hist resp npc c sm last acc pl sent act ini tr]
                 a ia ui ipp sch].
  destruct ev as [kd k u sh]. simpl.
  intros -> -> -> -> ->. ui_unfold. simpl.
  destruct c as [c |]; simpl; done.
Qed.

Lemma shift_q_ends_chat_witness :
  active open_dialogue = true /\ input_active open_dialogue = true /\
  (handle_input sample_str_ops (KeyEvent true K_q "Q" true) open_dialogue).1
  = Ok (Some (MovePlayerBack (initial_player_pos open_dialogue))) /\
  is_open (Conn 0)
    (trace (core (handle_input sample_str_ops (KeyEvent true K_q "Q" true)
                    open_dialogue).2)) = true.
Proof.
  split; [reflexivity |]. split; [reflexivity |].
  pose proof (shift_q_ends_chat sample_str_ops (KeyEvent true K_q "Q" true)
                open_dialogue eq_refl eq_refl eq_refl eq_refl eq_refl) as H.
  split; [exact (proj1 H) |].
  rewrite (proj1 (proj2 (proj2 (proj2 (proj2 (proj2 (proj2 (proj2 H)))))))).
  reflexivity.
Defined.

(** X20.  Return in an open dialogue submits the text typed, stripped:
    when the stripped text is not empty, exactly one user turn with it is
    appended to the turn log, [send_message] with it is handed to the
    event loop (after the cancel task when the agent is responding) and
    the input line is cleared.  When the stripped text is empty, nothing
    is appended to the log and nothing is handed over. *)
Theorem return_submits_typed_text (so : str_ops) (ev : key_event)
    (d : Dialogue) :
  active d = true -> input_active d = true ->
  keydown ev = true -> event_key ev = K_RETURN ->
  let r := handle_input so ev d in
  let text := strip so (user_input d) in
  r.1 = Ok None /\
  trace (core r.2) = trace (core d) /\
  (text <> "" ->
   conversation_history (core r.2)
   = conversation_history (core d) ++ [Turn User text] /\
   scheduled r.2
   = scheduled d
     ++ (if is_npc_responding (core d) then [CancelOngoingResponse] else [])
     ++ [SendMessage text] /\
   user_input r.2 = "") /\
  (text = "" ->
   conversation_history (core r.2) = conversation_history (core d) /\
   scheduled r.2 = scheduled d).
Proof.
  destruct d as [[msg hist resp npc c sm last acc pl sent act ini tr]
                 a ia ui ipp sch].
  destruct ev as [kd k u sh]. simpl.
  intros -> -> -> ->. ui_unfold. simpl.
  rewrite andb_false_r. simpl.
  destruct (bool_decide (strip so ui = "")) eqn:E; simpl.
  - apply bool_decide_eq_true in E.
    destruct (isprintable so u); simpl; done.
  - apply bool_decide_eq_false in E.
    destruct resp; simpl; rewrite <- ?app_assoc; done.
Qed.

Lemma return_submits_typed_text_witness :
  active open_dialogue = true /\ input_active open_dialogue = true /\
  strip sample_str_ops (user_input open_dialogue) <> "" /\
  user_input (handle_input sample_str_ops (KeyEvent true K_RETURN "" false)
                open_dialogue).2 = "".
Proof.
  assert (H : strip sample_str_ops (user_input open_dialogue) <> "")
    by (intros E; discriminate E).
  split; [reflexivity |]. split; [reflexivity |]. split; [exact H |].
  exact (proj2 (proj2 (proj1 (proj2 (proj2
           (return_submits_typed_text sample_str_ops
              (KeyEvent true K_RETURN "" false) open_dialogue
              eq_refl eq_refl eq_refl eq_refl))) H))).
Defined.

(** The encoding of a code point is one byte that is not a continuation
    byte, followed by continuation bytes only. *)
Lemma utf8_char_shape (cp : N) :
  is_code_point cp ->
  exists lead conts,
    utf8_char cp = String lead conts /\
    is_continuation lead = false /\ all_continuation conts = true.
Proof.
  unfold is_code_point, utf8_char. intros Hcp.
  assert (Hcont : forall n, is_continuation (ascii_of_N (128 + n mod 64)) = true).
  { intros n. unfold is_continuation.
    pose proof (N.mod_lt n 64 ltac:(done)) as Hm.
    generalize dependent (n mod 64)%N. intros m Hm.
    rewrite N_ascii_embedding by lia.
    apply andb_true_intro. split; [apply N.leb_le | apply N.ltb_lt]; lia. }
  assert (Hlead : forall n, (n < 128 \/ 192 <= n < 256)%N ->
                            is_continuation (ascii_of_N n) = false).
  { intros n Hn. unfold is_continuation.
    rewrite N_ascii_embedding by lia.
    destruct Hn as [Hn | Hn].
    - apply andb_false_intro1, N.leb_gt. lia.
    - apply andb_false_intro2, N.ltb_ge. lia. }
  destruct (N.ltb_spec cp 128) as [H1 | H1].
  { eexists _, _. split; [reflexivity |]. split; [| done].
    apply Hlead. lia. }
  destruct (N.ltb_spec cp 2048) as [H2 | H2].
  { eexists _, _. split; [reflexivity |]. split.
    - apply Hlead. right.
      pose proof (N.Div0.div_lt_upper_bound cp 64 32 ltac:(lia)) as Hq.
      set (q := N.div cp 64) in *. clearbody q. lia.
    - cbn [all_continuation]. by rewrite Hcont. }
  destruct (N.ltb_spec cp 65536) as [H3 | H3].
  { eexists _, _. split; [reflexivity |]. split.
    - apply Hlead. right.
      pose proof (N.Div0.div_lt_upper_bound cp 4096 16 ltac:(lia)) as Hq.
      set (q := N.div cp 4096) in *. clearbody q. lia.
    - cbn [all_continuation]. by rewrite !Hcont. }
  eexists _, _. split; [reflexivity |]. split.
  - apply Hlead. right.
    pose proof (N.Div0.div_lt_upper_bound cp 262144 5 ltac:(lia)) as Hq.
      set (q := N.div cp 262144) in *. clearbody q. lia.
  - cbn [all_continuation]. by rewrite !Hcont.
Qed.

Lemma all_continuation_app (s : string) (lead : ascii) (conts : string) :
  is_continuation lead = false ->
  all_continuation (s ++ String lead conts)%string = false.
Proof.
  intros Hlead. induction s as [| c s IH].
  - change (is_continuation lead && all_continuation conts = false).
    by rewrite Hlead.
  - change (is_continuation c
            && all_continuation (s ++ String lead conts)%string = false).
    rewrite IH. apply andb_false_r.
Qed.

(** [but_last] takes away what was appended last, when that is the
    encoding of one code point. *)
Lemma but_last_utf8_char (s : string) (cp : N) :
  is_code_point cp -> but_last (s ++ utf8_char cp)%string = s.
Proof.
  intros Hcp.
  destruct (utf8_char_shape cp Hcp) as (lead & conts & -> & Hlead & Hconts).
  induction s as [| c s IH].
  - change ((if all_continuation conts then EmptyString
             else String lead (but_last conts)) = EmptyString).
    by rewrite Hconts.
  - change ((if all_continuation (s ++ String lead conts)%string
             then EmptyString
             else String c (but_last (s ++ String lead conts)%string))
            = String c s).
    by rewrite all_continuation_app, IH.
Qed.

Lemma utf8_snoc (cps : list N) (cp : N) :
  utf8 (cps ++ [cp]) = (utf8 cps ++ utf8_char cp)%string.
Proof.
  induction cps as [| c cps IH].
  - change (utf8_char cp ++ "" = "" ++ utf8_char cp)%string.
    by rewrite string_append_empty_r.
  - change ((utf8_char c ++ utf8 (cps ++ [cp]))%string
            = ((utf8_char c ++ utf8 cps) ++ utf8_char cp)%string).
    by rewrite IH, string_append_assoc.
Qed.

(** X21.  Typing a character and pressing Backspace is a round trip, for
    every character: in an open dialogue, a key press other than Return,
    Backspace, F5 and Q that carries one printable code point appends it
    to the input line, and a Backspace after it gives back the dialogue
    as it was.  Backspace takes away the last code point of the input
    line, however many bytes encode it, and changes nothing on an empty
    input line. *)
Theorem typing_then_backspace (so : str_ops) (code : Z) (cp : N)
    (shift shift' : bool) (u' : string) (d : Dialogue) :
  active d = true -> input_active d = true ->
  is_code_point cp ->
  isprintable so (utf8_char cp) = true ->
  let typed :=
    handle_input so (KeyEvent true (K_other code) (utf8_char cp) shift) d in
  let backspace := handle_input so (KeyEvent true K_BACKSPACE u' shift') in
  typed.1 = Ok None /\
  user_input typed.2 = (user_input d ++ utf8_char cp)%string /\
  backspace typed.2 = (Ok None, d) /\
  (forall cps, user_input d = utf8 (cps ++ [cp]) ->
     backspace d = (Ok None, set_user_input (utf8 cps) d)) /\
  (user_input d = "" -> backspace d = (Ok None, d)).
Proof.
  destruct d as [co a ia ui ipp sch]. simpl.
  intros -> -> Hcp Hp. unfold handle_input. py_unfold. simpl.
  rewrite !andb_false_r. simpl. rewrite Hp. simpl.
  rewrite but_last_utf8_char by done.
  split; [done |]. split; [done |]. split; [done |]. split.
  - intros cps ->. by rewrite utf8_snoc, but_last_utf8_char.
  - by intros ->.
Qed.

Lemma typing_then_backspace_witness :
  active open_dialogue = true /\ input_active open_dialogue = true /\
  is_code_point 97 /\
  isprintable sample_str_ops (utf8_char 97) = true /\
  handle_input sample_str_ops (KeyEvent true K_BACKSPACE "" false)
    (handle_input sample_str_ops (KeyEvent true (K_other 97) "a" false)
       open_dialogue).2
  = (Ok None, open_dialogue).
Proof.
  split; [reflexivity |]. split; [reflexivity |]. split; [reflexivity |].
  split; [reflexivity |].
  exact (proj1 (proj2 (proj2 (typing_then_backspace sample_str_ops 97 97
           false false "" open_dialogue eq_refl eq_refl eq_refl eq_refl)))).
Defined.

(** Backspace after [café] leaves [caf]: the two bytes of the last letter
    go together. *)
Example backspace_takes_a_whole_letter :
  let so := StrOps (fun s => s) (fun _ => true) in
  let d := set_user_input (utf8 [99; 97; 102; 233]%N) open_dialogue in
  String.length (user_input d) = 5%nat /\
  user_input (handle_input so (KeyEvent true K_BACKSPACE "" false) d).2
  = "caf".
Proof. vm_compute. done. Qed.

(** X22.  F5 in an open dialogue toggles speech mode.  Turning it off
    stops and empties the player, clears [speech_active], forgets a
    connection still held (without closing it: [close] is not awaited)
    and hands over the cancel task.  Turning it on clears [sent_audio_once] and hands over the connect and
    capture tasks exactly when no initialised connection is held; the
    player and the connection are not touched.  The turn log is untouched
    both ways, and no call leaves the process. *)
Theorem f5_toggles_speech_mode (so : str_ops) (ev : key_event)
    (d : Dialogue) :
  active d = true -> input_active d = true ->
  keydown ev = true -> event_key ev = K_F5 ->
  let r := handle_input so ev d in
  r.1 = Ok None /\
  speech_mode (core r.2) = negb (speech_mode (core d)) /\
  conversation_history (core r.2) = conversation_history (core d) /\
  trace (core r.2) = trace (core d) /\
  (speech_mode (core d) = true ->
   queue (audio_player (core r.2)) = [] /\
   playing (audio_player (core r.2)) = false /\
   speech_active (core r.2) = false /\
   realtime_conn (core r.2) = None /\
   scheduled r.2 = scheduled d ++ [CancelOngoingResponse]) /\
  (speech_mode (core d) = false ->
   sent_audio_once (core r.2) = false /\
   audio_player (core r.2) = audio_player (core d) /\
   realtime_conn (core r.2) = realtime_conn (core d) /\
   scheduled r.2
   = scheduled d
     ++ (if bool_decide (is_Some (realtime_conn (core d)))
            && realtime_initialized (core d)
         then [] else [InitializeRealtime; RecordMicAudio])).
Proof.
  destruct d as [[msg hist resp npc c sm last acc pl sent act ini tr]
                 a ia ui ipp sch].
  destruct ev as [kd k u sh]. simpl.
  intros -> -> -> ->. ui_unfold. simpl.
  rewrite andb_false_r. simpl.
  destruct sm; simpl.
  - destruct c as [c |]; simpl; destruct (isprintable so u); simpl;
      rewrite ?app_nil_r; repeat split; done.
  - destruct c as [c |]; simpl; [destruct ini; simpl |];
      destruct (isprintable so u); simpl;
      rewrite ?app_nil_r, <- ?app_assoc; repeat split; done.
Qed.

Lemma f5_toggles_speech_mode_witness :
  active open_dialogue = true /\ input_active open_dialogue = true /\
  speech_mode (core open_dialogue) = true /\
  realtime_conn
    (core (handle_input sample_str_ops (KeyEvent true K_F5 "" false)
             open_dialogue).2) = None.
Proof.
  split; [reflexivity |]. split; [reflexivity |]. split; [reflexivity |].
  exact (proj1 (proj2 (proj2 (proj2 (proj1 (proj2 (proj2 (proj2 (proj2
           (f5_toggles_speech_mode sample_str_ops (KeyEvent true K_F5 "" false)
              open_dialogue eq_refl eq_refl eq_refl eq_refl))))) eq_refl))))).
Defined.

End UiCoverage.

(* ===================================================================== *)
(** * The audio worker: properties *)
(* ===================================================================== *)

Module WorkerCoverage.
Import App Worker Coverage.

Local Open Scope string_scope.
Local Open Scope list_scope.

Lemma phase_after_app ws ph tr1 tr2 :
  phase_after ws ph (tr1 ++ tr2)
  = match phase_after ws ph tr1 with
    | Some ph' => phase_after ws ph' tr2
    | None => None
    end.
Proof.
  revert ph. induction tr1 as [| e tr1 IH]; intros ph; simpl; [done |].
  destruct (phase_step ws ph e); [apply IH | done].
Qed.

Lemma protocol_app tr1 tr2 : protocol (tr1 ++ tr2) = protocol tr1 ++ protocol tr2.
Proof. unfold protocol. apply filter_app. Qed.

(** One pass keeps to the protocol, from the phase [sent_audio] stands
    for, and does not touch the stream. *)
Lemma iteration_protocol cd cb tk w :
  let r := iteration cd cb tk w in
  exists new ph,
    trace r.2 = trace w ++ new /\
    phase_after (has_start_send cb) (phase_of (sent_audio w)) (protocol new)
      = Some ph /\
    (r.1 = Ok tt -> ph = phase_of (sent_audio r.2)) /\
    filter is_stream_effect new = [] /\
    (has_should_send cb = false -> filter is_commit new = []).
Proof.
  destruct w as [sent tr].
  destruct tk as [ra rd should sf sr].
  destruct cb as [hs hst].
  unfold iteration, send. py_unfold. simpl.
  destruct (bool_decide (ra < read_size)); simpl;
    [exists [Yield], (phase_of sent); by destruct sent |].
  destruct rd as [[data overflowed] | e]; simpl;
    [| exists [], (phase_of sent); rewrite app_nil_r; by destruct sent].
  destruct hs, should, sent, hst; simpl;
    try destruct sf as [e |]; simpl;
    try destruct (sr (Append (b64encode cd (tobytes data)))) as [e1 |]; simpl;
    try destruct (sr Commit) as [e2 |]; simpl;
    try destruct (sr ResponseCreate) as [e3 |]; simpl;
    rewrite <- ?app_assoc; simpl;
    (eexists; eexists; split;
     [first [reflexivity | symmetry; apply app_nil_r] |]);
    simpl; repeat split; try done.
Qed.

Lemma loop_protocol cd cb ticks : forall w,
  let r := loop cd cb ticks w in
  exists new ph,
    trace r.2 = trace w ++ new /\
    phase_after (has_start_send cb) (phase_of (sent_audio w)) (protocol new)
      = Some ph /\
    (r.1 = Ok tt -> ph = phase_of (sent_audio r.2)) /\
    filter is_stream_effect new = [] /\
    (has_should_send cb = false -> filter is_commit new = []).
Proof.
  induction ticks as [| tk ticks IH]; intros w.
  - exists [], (phase_of (sent_audio w)). simpl. rewrite app_nil_r. done.
  - cbn [loop]. unfold bind.
    destruct (iteration_protocol cd cb tk w)
      as (n1 & ph1 & Ht1 & Hp1 & Hok1 & Hs1 & Hc1).
    destruct (iteration cd cb tk w) as [[[] | e] w1]; simpl in *.
    + destruct (IH w1) as (n2 & ph2 & Ht2 & Hp2 & Hok2 & Hs2 & Hc2).
      exists (n1 ++ n2), ph2. rewrite Ht2, Ht1, <- app_assoc.
      split; [done |]. rewrite protocol_app, phase_after_app, Hp1.
      rewrite (Hok1 eq_refl). split; [done |]. split; [done |].
      rewrite !filter_app, Hs1, Hs2. split; [done |].
      intros H. by rewrite Hc1, Hc2.
    + exists n1, ph1. repeat split; try done.
Qed.

(** X23.  The worker keeps to its protocol on the connection, whatever
    the device delivers and the callbacks answer, up to the point where a
    send or a callback raises: each burst is one or more append commands,
    preceded by one [start_send] call exactly when that callback is given,
    and closed by a commit followed at once by a response request; no
    commit goes out without an append before it.  When the worker is
    cancelled between two passes, a burst is open exactly when
    [sent_audio] is true. *)
Theorem worker_keeps_to_protocol (cd : codec) (cb : callbacks)
    (opening : mic_open) (ticks : list tick) (w : worker) :
  let r := send_audio_worker_sounddevice cd cb opening ticks w in
  exists new ph,
    trace r.2 = trace w ++ new /\
    phase_after (has_start_send cb) Idle (protocol new) = Some ph /\
    (r.1 = Ok tt -> ph = phase_of (sent_audio r.2)).
Proof.
  unfold send_audio_worker_sounddevice. py_unfold.
  destruct opening as [e | e |].
  - exists [QueryDevices], Idle. destruct w; simpl. done.
  - exists [QueryDevices], Idle. destruct w; simpl. done.
  - set (w0 := log StreamStart (log QueryDevices (set_sent_audio false w))).
    destruct (loop_protocol cd cb ticks w0)
      as (new & ph & Htr & Hp & Hok & _).
    destruct (loop cd cb ticks w0) as [res w1]. simpl in *.
    exists ([QueryDevices; StreamStart] ++ new ++ [StreamStop; StreamClose]), ph.
    split; [destruct w, w1; simpl in *; rewrite Htr, <- !app_assoc; done |].
    rewrite !protocol_app, !phase_after_app. simpl.
    rewrite phase_after_app, Hp. split; [done |].
    intros Hres. destruct w1; simpl in *. by apply Hok.
Qed.

Lemma worker_keeps_to_protocol_witness :
  exists new ph,
    trace (send_audio_worker_sounddevice Pipeline.sample_codec (Callbacks true true)
             MicRuns [sample_tick true; sample_tick true; sample_tick false]
             start).2 = trace start ++ new /\
    phase_after true Idle (protocol new) = Some ph /\
    ph = Idle.
Proof.
  destruct (worker_keeps_to_protocol Pipeline.sample_codec (Callbacks true true)
              MicRuns [sample_tick true; sample_tick true; sample_tick false]
              start) as (new & ph & Htr & Hp & Hok).
  exists new, ph. split; [exact Htr |]. split; [exact Hp |].
  exact (Hok eq_refl).
Defined.

Example worker_burst :
  protocol (trace (send_audio_worker_sounddevice Pipeline.sample_codec
                     (Callbacks true true) MicRuns
                     [sample_tick true; sample_tick true; sample_tick false]
                     start).2)
  = [StartSend; Send (Append "AQACAA=="); Send (Append "AQACAA==");
     Send Commit; Send ResponseCreate].
Proof. vm_compute. reflexivity. Qed.

(** X24.  Once the input stream is started the worker releases it on
    every exit path: whether the loop ends or raises, the stream is
    stopped and then closed, these being the last two effects and the only
    stream calls after the start; an exception raised in the loop is
    passed on to the caller, not swallowed.  When the stream cannot be
    opened or started, the exception is passed on at once. *)
Theorem worker_releases_stream (cd : codec) (cb : callbacks)
    (opening : mic_open) (ticks : list tick) (w : worker) :
  let r := send_audio_worker_sounddevice cd cb opening ticks w in
  match opening with
  | MicRuns =>
      let w0 := log StreamStart (log QueryDevices (set_sent_audio false w)) in
      r.1 = (loop cd cb ticks w0).1 /\
      exists mid,
        trace r.2 = trace w ++ [QueryDevices; StreamStart] ++ mid
                    ++ [StreamStop; StreamClose] /\
        filter is_stream_effect mid = []
  | InputStreamRaises e | StartRaises e =>
      r.1 = Raise e /\ trace r.2 = trace w ++ [QueryDevices]
  end.
Proof.
  unfold send_audio_worker_sounddevice. py_unfold.
  destruct opening as [e | e |]; [by destruct w | by destruct w |].
  set (w0 := log StreamStart (log QueryDevices (set_sent_audio false w))).
  destruct (loop_protocol cd cb ticks w0) as (new & ph & Htr & _ & _ & Hs & _).
  destruct (loop cd cb ticks w0) as [res w1]. simpl in *.
  split; [done |]. exists new. split; [| done].
  destruct w, w1; simpl in *. rewrite Htr, <- !app_assoc. done.
Qed.

(** X25.  Without a [should_send] callback the worker only appends: it
    never sends a commit or a response request. *)
Theorem worker_without_should_send_never_commits (cd : codec)
    (cb : callbacks) (opening : mic_open) (ticks : list tick) (w : worker) :
  has_should_send cb = false ->
  let r := send_audio_worker_sounddevice cd cb opening ticks w in
  exists new, trace r.2 = trace w ++ new /\ filter is_commit new = [].
Proof.
  intros Hcb. unfold send_audio_worker_sounddevice. py_unfold.
  destruct opening as [e | e |];
    [exists [QueryDevices]; by destruct w
    | exists [QueryDevices]; by destruct w |].
  set (w0 := log StreamStart (log QueryDevices (set_sent_audio false w))).
  destruct (loop_protocol cd cb ticks w0) as (new & ph & Htr & _ & _ & _ & Hc).
  destruct (loop cd cb ticks w0) as [res w1]. simpl in *.
  exists ([QueryDevices; StreamStart] ++ new ++ [StreamStop; StreamClose]).
  split; [destruct w, w1; simpl in *; rewrite Htr, <- !app_assoc; done |].
  rewrite !filter_app, (Hc Hcb). done.
Qed.

Lemma worker_without_should_send_never_commits_witness :
  has_should_send (Callbacks false true) = false /\
  exists new,
    trace (send_audio_worker_sounddevice Pipeline.sample_codec (Callbacks false true)
             MicRuns [sample_tick false; sample_tick false] start).2
    = trace start ++ new /\
    filter is_commit new = [].
Proof.
  split; [reflexivity |].
  exact (worker_without_should_send_never_commits Pipeline.sample_codec
           (Callbacks false true) MicRuns
           [sample_tick false; sample_tick false] start eq_refl).
Defined.

End WorkerCoverage.

(* ===================================================================== *)
(** * Caption layout: properties *)
(* ===================================================================== *)

Module RenderCoverage.
Import Render Coverage.

Local Open Scope string_scope.
Local Open Scope list_scope.

Lemma foldl_step {A B} (g : A -> B -> A) (a : A) (x : B) (l : list B) :
  foldl g a (x :: l) = foldl g (g a x) l.
Proof. reflexivity. Qed.

Lemma counted_width_snoc f line word :
  counted_width f (line ++ [word])
  = counted_width f line + text_width f (word ++ " ")%string.
Proof.
  unfold counted_width. induction line as [| w line IH]; simpl; [lia |].
  rewrite IH. lia.
Qed.

Lemma group_word_inv f st word :
  wrap_inv f st -> wrap_inv f (group_word f st word).
Proof.
  destruct st as [[gs cur] cw]. unfold wrap_inv, group_word.
  intros (Hw & Hfit & Hgs & Hne & Hcur).
  case_bool_decide as Htest.
  - split; [by rewrite counted_width_snoc, Hw |].
    split; [done |]. split; [done |]. split; [done |].
    intros _. by destruct cur.
  - split; [unfold counted_width; simpl; lia |].
    split; [simpl; lia |]. split.
    + apply Forall_app. split; [done |].
      apply Forall_singleton. intros H. rewrite <- Hw. by apply Hfit.
    + split; [| done]. intros i g Hi.
      destruct (decide (S i < length gs)%nat) as [Hlt | Hge].
      * rewrite lookup_app_l in Hi by done. by apply (Hne i).
      * rewrite lookup_app_r in Hi by lia.
        destruct (S i - length gs)%nat eqn:E; [| by destruct n].
        simpl in Hi. injection Hi as <-. apply Hcur.
        intros ->. simpl in *. lia.
Qed.

Lemma foldl_group_inv f words : forall st,
  wrap_inv f st -> wrap_inv f (foldl (group_word f) st words).
Proof.
  induction words as [| w words IH]; intros st Hst; [done |].
  rewrite foldl_step. by apply IH, group_word_inv.
Qed.

(** The loop on strings is the loop on word lists, line by line. *)
Lemma foldl_wrap_groups f words : forall gs cur cw,
  foldl (wrap_word f) (map join gs, cur, cw) words
  = let '(gs', cur', cw') := foldl (group_word f) (gs, cur, cw) words in
    (map join gs', cur', cw').
Proof.
  induction words as [| w words IH]; intros gs cur cw; [done |].
  rewrite !foldl_step. unfold wrap_word at 2, group_word at 2.
  case_bool_decide; [apply IH |].
  rewrite <- (IH (gs ++ [cur])). by rewrite map_app.
Qed.

Lemma foldl_group_words f words : forall gs cur cw,
  let '(gs', cur', _) := foldl (group_word f) (gs, cur, cw) words in
  concat gs' ++ cur' = concat gs ++ cur ++ words.
Proof.
  induction words as [| w words IH]; intros gs cur cw.
  - simpl. by rewrite app_nil_r.
  - rewrite foldl_step. unfold group_word at 2. case_bool_decide.
    + specialize (IH gs (cur ++ [w]) (cw + text_width f (w ++ " ")%string)).
      destruct (foldl _ _ words) as [[gs' cur'] cw'].
      rewrite IH, <- !app_assoc. done.
    + specialize (IH (gs ++ [cur]) [w] (text_width f (w ++ " ")%string)).
      destruct (foldl _ _ words) as [[gs' cur'] cw'].
      rewrite IH, concat_app. simpl. rewrite app_nil_r, <- !app_assoc. done.
Qed.

(** The lines are the groups, joined, and the groups are the words. *)
Lemma wrap_refines_groups (f : font) (words : list string) :
  wrap f words = map join (groups f words) /\
  concat (groups f words) = words.
Proof.
  unfold wrap, groups.
  pose proof (foldl_wrap_groups f words [] [] 0) as Hw.
  pose proof (foldl_group_words f words [] [] 0) as Hc.
  simpl in Hw. rewrite Hw.
  destruct (foldl (group_word f) ([], [], 0) words) as [[gs cur] cw].
  simpl in Hc. destruct cur as [| w cur].
  - rewrite app_nil_r in Hc. done.
  - rewrite map_app, concat_app. simpl. rewrite app_nil_r. done.
Qed.

(** X26.  [render_text] loses no word and keeps the words in order: the
    lines it draws are the words of the text, joined by single spaces
    within a line, cut into consecutive groups. *)
Theorem wrap_keeps_every_word (f : font) (words : list string) :
  wrap f words = map join (groups f words) /\
  concat (groups f words) = words.
Proof. apply wrap_refines_groups. Qed.

(** The shape of the groups. *)
Lemma groups_shape (f : font) (words : list string) :
  Forall (fun g => (2 <= length g)%nat -> counted_width f g <= 760)
    (groups f words) /\
  (forall i g, groups f words !! S i = Some g -> g <> []) /\
  (forall w rest, words = w :: rest ->
     760 < text_width f (w ++ " ")%string ->
     groups f words !! 0%nat = Some []).
Proof.
  assert (Hinv : wrap_inv f (foldl (group_word f) ([], [], 0) words)).
  { apply foldl_group_inv. unfold wrap_inv, counted_width. simpl.
    split; [done |]. split; [lia |]. split; [done |]. split; done. }
  unfold groups. split; [| split].
  - destruct (foldl (group_word f) ([], [], 0) words) as [[gs cur] cw].
    destruct Hinv as (Hw & Hfit & Hgs & Hne & Hcur).
    change max_width with 760 in *.
    destruct cur as [| w cur]; [done |].
    apply Forall_app. split; [done |]. apply Forall_singleton.
    intros H. rewrite <- Hw. by apply Hfit.
  - destruct (foldl (group_word f) ([], [], 0) words) as [[gs cur] cw].
    destruct Hinv as (Hw & Hfit & Hgs & Hne & Hcur).
    destruct cur as [| w cur]; [done |].
    intros i g Hi.
    destruct (decide (S i < length gs)%nat) as [Hlt | Hge].
    + rewrite lookup_app_l in Hi by done. by apply (Hne i).
    + rewrite lookup_app_r in Hi by lia.
      destruct (S i - length gs)%nat eqn:E; [| by destruct n].
      simpl in Hi. by injection Hi as <-.
  - intros w rest -> Hwide. rewrite foldl_step. unfold group_word at 2.
    rewrite bool_decide_eq_false_2 by (unfold max_width, WINDOW_WIDTH; lia).
    simpl.
    assert (Hhead : forall ws gs cur cw,
      let '(gs', _, _) := foldl (group_word f) ([] :: gs, cur, cw) ws in
      gs' !! 0%nat = Some []).
    { induction ws as [| w' ws IH]; intros gs cur cw; [done |].
      rewrite foldl_step. unfold group_word at 2.
      case_bool_decide; apply IH. }
    specialize (Hhead rest [] [w] (text_width f (w ++ " ")%string)).
    destruct (foldl _ _ rest) as [[gs cur] cw].
    destruct cur; [done |]. destruct gs; [done |]. done.
Qed.

(** X27.  Every line of two or more words fits: the widths the loop
    counts for its words, each with its trailing space, add up to at most
    760 pixels.  A line may be too wide only if it is a single word, and
    only the first line may be empty: it is when the first word alone is
    wider than 760 pixels. *)
Theorem wrapped_lines_fit (f : font) (words : list string) :
  Forall (fun g => (2 <= length g)%nat -> counted_width f g <= 760)
    (groups f words) /\
  (forall i g, groups f words !! S i = Some g -> g <> []) /\
  (forall w rest, words = w :: rest ->
     760 < text_width f (w ++ " ")%string ->
     groups f words !! 0%nat = Some []).
Proof. apply groups_shape. Qed.

Lemma wrapped_lines_fit_witness :
  760 < text_width sample_font ("wide" ++ " ")%string /\
  groups sample_font ["wide"; "a"; "b"] !! 0%nat = Some [] /\
  wrap sample_font ["wide"; "a"; "b"] = [""; "wide"; "a b"].
Proof.
  assert (H : 760 < text_width sample_font ("wide" ++ " ")%string)
    by (vm_compute; reflexivity).
  split; [exact H |]. split; [| reflexivity].
  exact (proj2 (proj2 (wrapped_lines_fit sample_font ["wide"; "a"; "b"]))
           "wide" ["a"; "b"] eq_refl H).
Defined.

Lemma groups_count (gs : list (list string)) :
  (forall i g, gs !! S i = Some g -> g <> []) ->
  (length gs <= S (length (concat gs)))%nat.
Proof.
  destruct gs as [| g0 tl]; [simpl; lia |]. intros Hne. simpl.
  rewrite length_app.
  assert (Htl : (length tl <= length (concat tl))%nat).
  { assert (Hall : forall g, g ∈ tl -> g <> []).
    { intros g Hg. apply list_elem_of_lookup in Hg as [i Hi].
      by apply (Hne i). }
    clear Hne. induction tl as [| g tl IH]; [done |].
    simpl. rewrite length_app.
    assert (g <> []) by (apply Hall; left).
    assert (length tl <= length (concat tl))%nat
      by (apply IH; intros g' Hg'; apply Hall; by right).
    destruct g; [done | simpl; lia]. }
  lia.
Qed.

(** X28.  [render_text] returns 25 pixels per line drawn and draws line
    number [i] at [(x, y + 25 i)]; a text without words draws nothing and
    returns 0, and a text with words draws at least one line and at most
    one more line than it has words. *)
Theorem render_text_height (f : font) (text : string) (x y : Z) :
  let r := render_text f text x y in
  let lines := wrap f (split f text) in
  r.2 = Z.of_nat (length lines) * 25 /\
  (forall i,
     r.1 !! i = (fun line => (line, (x, y + Z.of_nat i * 25))) <$> lines !! i) /\
  (split f text = [] -> r = ([], 0)) /\
  (split f text <> [] ->
   (1 <= length lines <= S (length (split f text)))%nat).
Proof.
  intros r lines. subst r lines. unfold render_text. cbn [fst snd].
  set (words := split f text).
  split; [done |]. split; [intros i; apply list_lookup_imap |]. split.
  - intros ->. done.
  - intros Hwords.
    destruct (wrap_refines_groups f words) as [-> Hcat].
    rewrite length_map.
    destruct (groups_shape f words) as (_ & Hne & _).
    pose proof (groups_count (groups f words) Hne) as Hle.
    rewrite Hcat in Hle. split; [| done].
    destruct (groups f words); [by rewrite <- Hcat in Hwords | simpl; lia].
Qed.

Lemma render_text_height_witness :
  split sample_font "wide a b" <> [] /\
  (render_text sample_font "wide a b" 40 440).2 = 75 /\
  (1 <= length (wrap sample_font (split sample_font "wide a b")) <= 4)%nat.
Proof.
  assert (H : split sample_font "wide a b" <> [])
    by (intros E; discriminate E).
  split; [exact H |]. split; [reflexivity |].
  exact (proj2 (proj2 (proj2 (render_text_height sample_font "wide a b"
                                40 440))) H).
Defined.

End RenderCoverage.
